(** * pva: an OpenAPI linter front end

    A shallow embedding of the in-repository parts of pva
    ([source/index.ts], [source/config.ts], [source/cli.ts]) and the
    properties of its specification.

    JavaScript values are modelled as follows.
    - A [number] holding a count or a line is a [Z] or a [nat].
    - A string is a [string].
    - An exception is a value of [Thrown]; code that may throw returns
      [Thrown + A], threaded with the [let!] notation below.
    - An array that the code mutates in place lives in a [Store] and is
      named by its location, so that two references to one array alias. *)

From Stdlib Require Import ZArith Lia Bool List Sorted Permutation.
From Stdlib Require Import Ascii String.
From stdpp Require Import base list strings pretty.

Local Open Scope string_scope.
Local Open Scope Z_scope.

(** ** Exceptions *)

Module Js.

(** The exceptions that occur in the program. [JSONError] and
    [YAMLException] are the parsers' own error classes; [Error] is a
    plain [new Error(message)]. *)
Inductive Thrown : Type :=
  | Error (message : string)
  | TypeError (message : string)
  | RangeError (message : string)
  | JSONError (message : string)
  | YAMLException (message : string).

Definition message (e : Thrown) : string :=
  match e with
  | Error m | TypeError m | RangeError m | JSONError m | YAMLException m => m
  end.

(** [is.error(value)] of the package @sindresorhus/is: the value is an
    error object of the language. The errors of parse-json and of js-yaml are
    ordinary objects that inherit from [Error.prototype], built by a
    constructor function of the package, and the test does not hold for
    them. *)
Definition isError (e : Thrown) : bool :=
  match e with
  | JSONError _ | YAMLException _ => false
  | Error _ | TypeError _ | RangeError _ => true
  end.

Definition Completion (A : Type) : Type := (Thrown + A)%type.

Definition ret {A} (a : A) : Completion A := inr a.
Definition throw {A} (e : Thrown) : Completion A := inl e.

Definition bind {A B} (c : Completion A) (k : A -> Completion B) : Completion B :=
  match c with
  | inl e => inl e
  | inr a => k a
  end.

Fixpoint mapM {A B} (f : A -> Completion B) (l : list A) : Completion (list B) :=
  match l with
  | [] => ret []
  | x :: l' =>
      bind (f x) (fun y => bind (mapM f l') (fun ys => ret (y :: ys)))
  end.

(** ** Strings and arrays *)

(** [String.prototype.repeat]: a negative count throws a [RangeError]. *)
Definition repeat (s : string) (count : Z) : Completion string :=
  if count <? 0 then throw (RangeError "Invalid count value")
  else ret (String.concat "" (List.repeat s (Z.to_nat count))).

(** [Array.prototype.join]. *)
Definition join (sep : string) (l : list string) : string := String.concat sep l.

(** [lastItem(array)] of the package last-item: [undefined] on an empty
    array. *)
Definition lastItem {A} (l : list A) : option A := last l.

(** [Array.prototype.sort(compare)]. The language requires the sort to be
    stable (ECMAScript 2019; the package asks for Node 14.14 or later), so
    for a comparator that is a consistent ordering the result is the one of
    insertion sort: an element moves behind the elements that compare
    strictly less than it and stays in front of those that compare equal. *)
Section Sort.
Context {A : Type} (compare : A -> A -> Z).

Fixpoint insert (x : A) (l : list A) : list A :=
  match l with
  | [] => [x]
  | y :: l' => if compare x y <=? 0 then x :: y :: l' else y :: insert x l'
  end.

Fixpoint sort (l : list A) : list A :=
  match l with
  | [] => []
  | x :: l' => insert x (sort l')
  end.

(** The order that the comparator stands for: [x] may come before [y]. *)
Definition le (x y : A) : Prop := compare x y <= 0.
End Sort.

(** [numberSortAscending(left, right)] of the package num-sort, on numbers
    that are not NaN. *)
Definition numberSortAscending (left right : Z) : Z := left - right.

End Js.

Notation "'let!' x ':=' c 'in' k" := (Js.bind c (fun x => k))
  (at level 10, x pattern, c at level 100, k at level 200).

(** ** The working directory: [runInDirectory] *)

Module Process.

(** The part of the process state that [runInDirectory] reads and writes:
    the working directory, and the directories that exist. [resolve w d]
    is the absolute path that [d] names from the working directory of [w],
    when that directory exists. *)
Record World : Type := {
  cwd : string;
  resolve : string -> string -> option string
}.

(** [process.chdir(directory)] throws when the directory does not exist. *)
Definition chdir (directory : string) (w : World) : World * Js.Completion unit :=
  match resolve w (cwd w) directory with
  | Some d => ({| cwd := d; resolve := resolve w |}, Js.ret tt)
  | None => (w, Js.throw (Js.Error "ENOENT: no such file or directory, chdir"))
  end.

(** A callback is run to completion ([await callback()]): it may change
    the process state and it resolves to a value or rejects. *)
Definition Callback (T : Type) : Type := World -> World * Js.Completion T.

Definition runInDirectory {T} (directory : string) (callback : Callback T)
    (w : World) : World * Js.Completion T :=
  let originalWorkingDirectory := cwd w in
  match chdir directory w with
  | (w1, inl e) => (w1, inl e)
  | (w1, inr _) =>
      match callback w1 with
      | (w2, inl e) => (w2, inl e)
      | (w2, inr result) =>
          match chdir originalWorkingDirectory w2 with
          | (w3, inl e) => (w3, inl e)
          | (w3, inr _) => (w3, inr result)
          end
      end
  end.

(** A process in [/repo] with one sub-directory, and a delegated call that
    fails. *)
Definition repo : World := {|
  cwd := "/repo";
  resolve := fun from d =>
    if String.eqb d "/repo" then Some "/repo"
    else if String.eqb d "/repo/specs" then Some "/repo/specs"
    else if String.eqb from "/repo" && String.eqb d "specs" then Some "/repo/specs"
    else None
|}.

Definition failing : Callback unit :=
  fun w => (w, Js.throw (Js.Error "engine failure")).

Definition succeeding : Callback unit :=
  fun w => (w, Js.ret tt).

(** *** The two halves of [runInDirectory]

    The function gives up control once, at [await callback()]. [enter] is
    what it does before, and [leave] what it does after, so that the calls
    of two files that [pMap] runs at the same time can be put in the order
    in which their halves run. *)
Definition enter (directory : string) (w : World) : World * Js.Completion string :=
  let originalWorkingDirectory := cwd w in
  match chdir directory w with
  | (w1, inl e) => (w1, inl e)
  | (w1, inr _) => (w1, inr originalWorkingDirectory)
  end.

Definition leave (originalWorkingDirectory : string) (w : World)
    : World * Js.Completion unit :=
  chdir originalWorkingDirectory w.

(** Two calls whose callbacks leave the process state alone, the second
    starting while the first awaits, and the first resuming first. *)
Definition overlapped (directoryA directoryB : string) (w : World)
    : World * Js.Completion unit :=
  match enter directoryA w with
  | (w1, inl e) => (w1, inl e)
  | (w1, inr originalA) =>
      match enter directoryB w1 with
      | (w2, inl e) => (w2, inl e)
      | (w2, inr originalB) =>
          match leave originalA w2 with
          | (w3, inl e) => (w3, inl e)
          | (w3, inr _) => leave originalB w3
          end
      end
  end.

(** A file system in which every directory exists and every path is
    absolute. *)
Definition flat (directory : string) : World :=
  {| cwd := directory; resolve := fun _ d => Some d |}.

End Process.

(** ** Lint results and the report: [formatResults] *)

Module Report.

Definition nl : string := String "010" "".

(** [number.toString()] of an integer. *)
Definition toString (n : Z) : string := pretty n.

Record LintMessage : Type := {
  path : list string;
  message : string;
  rule : string;
  line : Z
}.

(** The arrays of messages live in a store; a [Result] refers to them by
    location. An optional field that is absent is [None]. *)
Abbreviation Loc := nat (only parsing).
Abbreviation Store := (list (list LintMessage)) (only parsing).

Record Result : Type := {
  version : string;
  errors : option Loc;
  warnings : option Loc;
  infos : option Loc;
  hints : option Loc
}.

Definition read (s : Store) (l : Loc) : list LintMessage := default [] (s !! l).

(** The libraries and the process state that [formatResults] reads:
    chalk's styles, log-symbols, string-width, plur, the escape sequence of
    [ansiEscapes.iTerm.setCwd()], [process.stdout.isTTY] and whether
    [process.env.CI] is set. *)
Inductive Symbol : Type := info | success | warning | error.

Record Env : Type := {
  underline : string -> string;
  grey : string -> string;
  cyan : string -> string;
  yellow : string -> string;
  red : string -> string;
  logSymbols : Symbol -> string;
  stringWidth : string -> nat;
  plur : string -> nat -> string;
  setCwd : string;
  isTTY : bool;
  CI : bool
}.

Definition compareLine (a b : LintMessage) : Z :=
  Js.numberSortAscending (line a) (line b).

(** [array.sort((a, b) => numberSortAscending(a.line, b.line))] on the
    array at location [l]: the array is sorted in place. *)
Definition sortInPlace (l : Loc) (s : Store) : Store :=
  <[l := Js.sort compareLine (read s l)]> s.

(** A field with its default: [errors = []] binds a new empty array when
    the field is absent, an array that no input refers to, and sorting it
    changes nothing. *)
Definition sortField (field : option Loc) (s : Store) : Store :=
  match field with
  | Some l => sortInPlace l s
  | None => s
  end.

Definition sortResult (r : Result) (s : Store) : Store :=
  sortField (hints r) (sortField (infos r) (sortField (warnings r) (sortField (errors r) s))).

(** The store after [results.map(...)], lines 770 to 776: the callback runs
    on the files in order, and each run sorts the four arrays of its file. *)
Definition sortResults (results : list (string * Result)) (s : Store) : Store :=
  fold_left (fun s fr => sortResult (snd fr) s) results s.

(** The locations that the fields of a result name, in the order in which
    the callback sorts them. *)
Definition locations (r : Result) : list Loc :=
  omap id [errors r; warnings r; infos r; hints r].

Definition allLocations (results : list (string * Result)) : list Loc :=
  flat_map (fun fr => locations (snd fr)) results.

Definition sortLocations (ls : list Loc) (s : Store) : Store :=
  fold_left (fun s l => sortInPlace l s) ls s.

(** The objects that the callback builds hold the arrays that it has sorted.
    No array is written after line 776, so from there on an object is read
    as the messages that its arrays hold. *)
Record Buckets : Type := {
  b_version : string;
  b_errors : list LintMessage;
  b_warnings : list LintMessage;
  b_infos : list LintMessage;
  b_hints : list LintMessage
}.

Definition readField (s : Store) (field : option Loc) : list LintMessage :=
  match field with
  | Some l => read s l
  | None => []
  end.

Definition readResult (s : Store) (r : Result) : Buckets := {|
  b_version := version r;
  b_errors := readField s (errors r);
  b_warnings := readField s (warnings r);
  b_infos := readField s (infos r);
  b_hints := readField s (hints r)
|}.

Definition readResults (s : Store) (results : list (string * Result))
    : list (string * Buckets) :=
  map (fun fr => (fst fr, readResult s (snd fr))) results.

(** The running totals and widths of the loop of lines 778 to 795. *)
Record Totals : Type := {
  totalErrors : nat;
  totalWarnings : nat;
  totalInfos : nat;
  totalHints : nat;
  maxLineWidth : nat;
  maxMessageWidth : nat
}.

Definition noTotals : Totals := {|
  totalErrors := 0; totalWarnings := 0; totalInfos := 0; totalHints := 0;
  maxLineWidth := 0; maxMessageWidth := 0
|}.

(** [stringWidth(lastItem(bucket)?.line.toString())]: string-width gives 0
    for [undefined]. *)
Definition lastLineWidth (E : Env) (bucket : list LintMessage) : nat :=
  match Js.lastItem bucket with
  | Some m => stringWidth E (toString (line m))
  | None => 0%nat
  end.

Definition widest (E : Env) (messages : list LintMessage) (width : nat) : nat :=
  fold_left (fun w m => Nat.max (stringWidth E (message m)) w) messages width.

Definition addTotals (E : Env) (t : Totals) (b : Buckets) : Totals := {|
  totalErrors := totalErrors t + length (b_errors b);
  totalWarnings := totalWarnings t + length (b_warnings b);
  totalInfos := totalInfos t + length (b_infos b);
  totalHints := totalHints t + length (b_hints b);
  maxLineWidth :=
    Nat.max (lastLineWidth E (b_errors b))
      (Nat.max (lastLineWidth E (b_warnings b))
        (Nat.max (lastLineWidth E (b_infos b))
          (Nat.max (lastLineWidth E (b_hints b)) (maxLineWidth t))));
  maxMessageWidth := widest E (b_errors b ++ b_warnings b) (maxMessageWidth t)
|}.

Definition totals (E : Env) (results : list (string * Buckets)) : Totals :=
  fold_left (fun t fb => addTotals E t (snd fb)) results noTotals.

Definition formatLine (E : Env) (type : Symbol) (maxLineWidth maxMessageWidth : nat)
    (m : LintMessage) : Js.Completion string :=
  let! linePad :=
    Js.repeat " " (Z.of_nat maxLineWidth - Z.of_nat (stringWidth E (toString (line m)))) in
  let! messagePad :=
    Js.repeat " " (Z.of_nat maxMessageWidth - Z.of_nat (stringWidth E (message m))) in
  Js.ret (logSymbols E type ++ " " ++ linePad ++ grey E (toString (line m)) ++ " "
          ++ message m ++ messagePad ++ " " ++ grey E (rule m)).

(** The comparator of [results.sort], lines 802 to 816. *)
Definition compareResults (a b : Buckets) : Z :=
  if (length (b_errors a) =? length (b_errors b))%nat then
    if (length (b_warnings a) =? length (b_warnings b))%nat then
      if (length (b_infos a) =? length (b_infos b))%nat then
        Z.of_nat (length (b_hints b)) - Z.of_nat (length (b_hints a))
      else Z.of_nat (length (b_infos b)) - Z.of_nat (length (b_infos a))
    else Z.of_nat (length (b_warnings b)) - Z.of_nat (length (b_warnings a))
  else Z.of_nat (length (b_errors b)) - Z.of_nat (length (b_errors a)).

Definition compareFiles (a b : string * Buckets) : Z :=
  compareResults (snd a) (snd b).

(** The block of one file, lines 817 to 855. *)
Definition formatBlock (E : Env) (maxLineWidth maxMessageWidth : nat)
    (fb : string * Buckets) : Js.Completion string :=
  let '(file, b) := fb in
  let! hintLines := Js.mapM (formatLine E info maxLineWidth maxMessageWidth) (b_hints b) in
  let! infoLines := Js.mapM (formatLine E info maxLineWidth maxMessageWidth) (b_infos b) in
  let! warningLines :=
    Js.mapM (formatLine E warning maxLineWidth maxMessageWidth) (b_warnings b) in
  let! errorLines := Js.mapM (formatLine E error maxLineWidth maxMessageWidth) (b_errors b) in
  Js.ret (underline E file ++ nl
          ++ Js.join nl (hintLines ++ infoLines ++ warningLines ++ errorLines) ++ nl).

Definition statistic (E : Env) (style : string -> string) (word : string)
    (total : nat) : list string :=
  if (0 <? total)%nat then [style (pretty total ++ " " ++ plur E word total)] else [].

(** The statistics, lines 857 to 873, in the order of the pushes. *)
Definition statistics (E : Env) (t : Totals) : list string :=
  statistic E (cyan E) "hint" (totalHints t)
  ++ statistic E (cyan E) "info" (totalInfos t)
  ++ statistic E (yellow E) "warning" (totalWarnings t)
  ++ statistic E (red E) "error" (totalErrors t).

(** The files in the order of their blocks: [results.sort(...)]. *)
Definition blockOrder (s : Store) (results : list (string * Result))
    : list (string * Buckets) :=
  Js.sort compareFiles (readResults (sortResults results s) results).

Definition formatResults (E : Env) (results : list (string * Result)) (s : Store)
    : Store * Js.Completion string :=
  let output := nl in
  let output := if isTTY E && negb (CI E) then output ++ setCwd E else output in
  let s' := sortResults results s in
  let results' := readResults s' results in
  let t := totals E results' in
  if (totalErrors t + totalWarnings t + totalInfos t + totalHints t =? 0)%nat then
    (s', Js.ret "")
  else
    (s',
     let! blocks :=
       Js.mapM (formatBlock E (maxLineWidth t) (maxMessageWidth t))
         (Js.sort compareFiles results') in
     let output := output ++ Js.join nl blocks in
     let stats := statistics E t in
     let output :=
       if (0 <? length stats)%nat then output ++ nl ++ Js.join nl stats else output in
     Js.ret output).

(** *** The report, read as a whole *)

(** The buckets of a result as the report prints them: each array of the
    result in the store of the call, sorted by line. *)
Definition sortedBuckets (s : Store) (r : Result) : Buckets := {|
  b_version := version r;
  b_errors := Js.sort compareLine (readField s (errors r));
  b_warnings := Js.sort compareLine (readField s (warnings r));
  b_infos := Js.sort compareLine (readField s (infos r));
  b_hints := Js.sort compareLine (readField s (hints r))
|}.

Definition sortedResults (s : Store) (results : list (string * Result))
    : list (string * Buckets) :=
  map (fun fr => (fst fr, sortedBuckets s (snd fr))) results.

(** The number of messages of a run. *)
Definition bucketSizes (b : Buckets) : nat :=
  length (b_errors b) + length (b_warnings b) + length (b_infos b) + length (b_hints b).

Definition messageCount (s : Store) (results : list (string * Result)) : nat :=
  list_sum (map (fun fr => bucketSizes (readResult s (snd fr))) results).

Definition countOf (bucket : Buckets -> list LintMessage)
    (results : list (string * Buckets)) : nat :=
  list_sum (map (fun fb => length (bucket (snd fb))) results).

(** The counts of a file, errors first, and their lexicographic order. *)
Definition counts (b : Buckets) : nat * nat * nat * nat :=
  (length (b_errors b), length (b_warnings b), length (b_infos b), length (b_hints b)).

Definition lexGt (a b : nat * nat * nat * nat) : Prop :=
  let '(e1, w1, i1, h1) := a in
  let '(e2, w2, i2, h2) := b in
  (e1 > e2 \/ e1 = e2 /\ (w1 > w2 \/ w1 = w2 /\ (i1 > i2 \/ i1 = i2 /\ h1 > h2)))%nat.

Definition lexGe (a b : nat * nat * nat * nat) : Prop :=
  let '(e1, w1, i1, h1) := a in
  let '(e2, w2, i2, h2) := b in
  (e1 > e2 \/ e1 = e2 /\ (w1 > w2 \/ w1 = w2 /\ (i1 > i2 \/ i1 = i2 /\ h1 >= h2)))%nat.

(** The orders on the files of a report. *)
Definition descending (a b : string * Buckets) : Prop :=
  lexGe (counts (snd a)) (counts (snd b)).

Definition strictlyDescending (a b : string * Buckets) : Prop :=
  lexGt (counts (snd a)) (counts (snd b)).

Definition sameCounts (k : nat * nat * nat * nat) (fb : string * Buckets) : bool :=
  let '(e, w, i, h) := k in
  let '(e', w', i', h') := counts (snd fb) in
  ((e =? e') && (w =? w') && (i =? i') && (h =? h'))%nat.

(** A bucket after its sort: the same messages, in ascending order of
    their lines, and the messages of one line in the order they had. *)
Definition lineLe (a b : LintMessage) : Prop := line a <= line b.

Definition onLine (n : Z) (m : LintMessage) : bool := line m =? n.

Definition stablySortedByLine (before after : list LintMessage) : Prop :=
  Permutation after before
  /\ StronglySorted lineLe after
  /\ forall n, List.filter (onLine n) after = List.filter (onLine n) before.

(** The text of a line when neither padding is negative. *)
Definition lineText (E : Env) (type : Symbol) (maxLineWidth maxMessageWidth : nat)
    (m : LintMessage) : string :=
  logSymbols E type ++ " "
  ++ String.concat "" (List.repeat " " (maxLineWidth - stringWidth E (toString (line m))))
  ++ grey E (toString (line m)) ++ " " ++ message m
  ++ String.concat "" (List.repeat " " (maxMessageWidth - stringWidth E (message m)))
  ++ " " ++ grey E (rule m).

Definition blockText (E : Env) (maxLineWidth maxMessageWidth : nat)
    (fb : string * Buckets) : string :=
  underline E (fst fb) ++ nl
  ++ Js.join nl
       (map (lineText E info maxLineWidth maxMessageWidth) (b_hints (snd fb))
        ++ map (lineText E info maxLineWidth maxMessageWidth) (b_infos (snd fb))
        ++ map (lineText E warning maxLineWidth maxMessageWidth) (b_warnings (snd fb))
        ++ map (lineText E error maxLineWidth maxMessageWidth) (b_errors (snd fb)))
  ++ nl.

(** A line fits when its line number and its message are no wider than
    the two computed widths. *)
Definition fits (E : Env) (maxLineWidth maxMessageWidth : nat) (m : LintMessage) : Prop :=
  (stringWidth E (toString (line m)) <= maxLineWidth
   /\ stringWidth E (message m) <= maxMessageWidth)%nat.

Definition allMessages (b : Buckets) : list LintMessage :=
  b_hints b ++ b_infos b ++ b_warnings b ++ b_errors b.

(** The two widths that the loop of lines 778 to 795 computes for a run. *)
Definition lineWidth (E : Env) (s : Store) (results : list (string * Result)) : nat :=
  maxLineWidth (totals E (sortedResults s results)).

Definition messageWidth (E : Env) (s : Store) (results : list (string * Result)) : nat :=
  maxMessageWidth (totals E (sortedResults s results)).

Definition header (E : Env) : string :=
  if isTTY E && negb (CI E) then nl ++ setCwd E else nl.

(** The statistics section for the four totals of a run. *)
Definition footer (E : Env) (nhints ninfos nwarnings nerrors : nat) : string :=
  nl ++ Js.join nl
    (statistic E (cyan E) "hint" nhints
     ++ statistic E (cyan E) "info" ninfos
     ++ statistic E (yellow E) "warning" nwarnings
     ++ statistic E (red E) "error" nerrors).

(** [plur] on the four words of the report: the word itself for the count
    1, and the word with an s for every other count. *)
Definition severityWords : list string := ["hint"; "info"; "warning"; "error"].

Definition plurRegular (E : Env) : Prop :=
  forall word count, In word severityWords ->
    plur E word count = if (count =? 1)%nat then word else word ++ "s".

(** A result in which the absent fields are replaced by the array at [e]. *)
Definition withDefaults (e : Loc) (r : Result) : Result := {|
  version := version r;
  errors := Some (default e (errors r));
  warnings := Some (default e (warnings r));
  infos := Some (default e (infos r));
  hints := Some (default e (hints r))
|}.

Definition noBuckets (r : Result) : bool :=
  match errors r, warnings r, infos r, hints r with
  | None, None, None, None => true
  | _, _, _, _ => false
  end.

Definition someAbsent (r : Result) : bool :=
  match errors r, warnings r, infos r, hints r with
  | Some _, Some _, Some _, Some _ => false
  | _, _, _, _ => true
  end.

(** A terminal without styles: every style is the identity, a symbol is a
    letter, the width of a string is its length, and [plur] adds an [s]
    unless the count is 1. *)
Definition plain : Env := {|
  underline := fun x => x;
  grey := fun x => x;
  cyan := fun x => x;
  yellow := fun x => x;
  red := fun x => x;
  logSymbols := fun y =>
    match y with info => "i" | success => "v" | warning => "!" | error => "x" end;
  stringWidth := fun x => String.length x;
  plur := fun word count => if (count =? 1)%nat then word else word ++ "s";
  setCwd := "";
  isTTY := false;
  CI := false
|}.

Definition msg (text : string) (r : string) (n : Z) : LintMessage :=
  {| path := []; message := text; rule := r; line := n |}.

Definition fillDefaults (e : Loc) (results : list (string * Result))
    : list (string * Result) :=
  map (fun fr => (fst fr, withDefaults e (snd fr))) results.

(** *** Some runs *)

Definition onlyErrors (l : Loc) : Result :=
  {| version := "3.0.0"; errors := Some l; warnings := None; infos := None; hints := None |}.

Definition onlyHints (l : Loc) : Result :=
  {| version := "3.0.0"; errors := None; warnings := None; infos := None; hints := Some l |}.

(** The run of the help text of the command line: one file with two
    warnings and one error. *)
Definition helpStore : Store :=
  [ [msg "Object should have the required property `info`." "oas3-schema" 0];
    [msg "OpenAPI object should have non-empty `tags` array." "openapi-tags" 7;
     msg "Major version segment not present in either server URLs or paths"
       "major-version-in-path" 3] ].

Definition helpRun : list (string * Result) :=
  [("api.yaml",
    {| version := "3.0.0"; errors := Some 0%nat; warnings := Some 1%nat;
       infos := None; hints := None |})].

(** Two files: [b.yaml] with three warnings, listed first, and [a.yaml]
    with one error. *)
Definition scenarioStore : Store :=
  [ [msg "w1" "openapi-tags" 4; msg "w2" "operation-tags" 2; msg "w3" "no_summary" 9];
    [msg "e1" "oas3-schema" 1] ].

Definition scenarioRun : list (string * Result) :=
  [("b.yaml",
    {| version := "3.0.0"; errors := None; warnings := Some 0%nat;
       infos := None; hints := None |});
   ("a.yaml", onlyErrors 1)].

(** One file whose errors are not in the order of their lines. *)
Definition unsortedStore : Store :=
  [ [msg "second" "oas3-schema" 2; msg "first" "oas3-schema" 1] ].

Definition unsortedRun : list (string * Result) := [("api.yaml", onlyErrors 0)].

(** Two files with one error each. *)
Definition tiedStore : Store :=
  [ [msg "a" "oas3-schema" 1]; [msg "b" "oas3-schema" 1] ].

Definition tiedRun : list (string * Result) :=
  [("a.yaml", onlyErrors 0); ("b.yaml", onlyErrors 1)].

(** One file with one hint and nothing else. *)
Definition hintStore : Store := [ [msg "x" "operation-description" 1] ].

Definition hintRun : list (string * Result) := [("api.yaml", onlyHints 0)].

(** One file with one error; its other three fields are absent. *)
Definition errorStore : Store := [ [msg "x" "oas3-schema" 1] ].

Definition errorRun : list (string * Result) := [("api.yaml", onlyErrors 0)].

(** Two files, the first with an error and the second without any field;
    the store holds an empty array as well. *)
Definition mixedStore : Store := [ [msg "x" "oas3-schema" 1]; [] ].

Definition mixedRun : list (string * Result) :=
  [("a.yaml", onlyErrors 0);
   ("b.yaml",
    {| version := "2.0"; errors := None; warnings := None; infos := None; hints := None |})].

(** One file without messages. *)
Definition cleanStore : Store := [ [] ].

Definition cleanRun : list (string * Result) := [("api.yaml", onlyErrors 0)].

(** *** Notions for the further properties *)




(** The number of messages of one severity in the arrays of a run. *)
Definition inputCount (field : Result -> option Loc) (s : Store)
    (results : list (string * Result)) : nat :=
  list_sum (map (fun fr => length (readField s (field (snd fr)))) results).

(** [n] spaces. *)
Definition spaces (n : nat) : string := String.concat "" (List.repeat " " n).


(** Two files; the second has no message. *)
Definition sparseStore : Store := [ [msg "x" "oas3-schema" 1]; [] ].

Definition sparseRun : list (string * Result) :=
  [("a.yaml", onlyErrors 0); ("b.yaml", onlyErrors 1)].

End Report.

(** ** JSON documents and objects *)

Module Json.

(** A parsed document or a configuration: a JSON value. An object is the
    list of its properties in insertion order. *)
#[local] Unset Elimination Schemes.
Inductive Value : Type :=
  | Null
  | Bool (b : bool)
  | Number (n : Z)
  | Str (s : string)
  | Arr (items : list Value)
  | Obj (properties : list (string * Value)).
#[local] Set Elimination Schemes.

Definition Object : Type := list (string * Value).

(** [object[key]]: [None] is [undefined]. *)
Fixpoint get (key : string) (o : Object) : option Value :=
  match o with
  | [] => None
  | (k, v) :: o' => if String.eqb k key then Some v else get key o'
  end.

(** [object[key] = value] on a key that the object has: the property
    keeps its place. *)
Fixpoint set (key : string) (value : Value) (o : Object) : Object :=
  match o with
  | [] => []
  | (k, v) :: o' =>
      if String.eqb k key then (k, value) :: o' else (k, v) :: set key value o'
  end.

(** [Object.defineProperty(object, key, {value, ...})]: a new property
    goes last. *)
Definition define (key : string) (value : Value) (o : Object) : Object :=
  match get key o with
  | Some _ => set key value o
  | None => (o ++ [(key, value)])%list
  end.

(** The value at a path of keys. *)
Fixpoint getPath (keys : list string) (v : Value) : option Value :=
  match keys with
  | [] => Some v
  | k :: keys' =>
      match v with
      | Obj o =>
          match get k o with
          | Some v' => getPath keys' v'
          | None => None
          end
      | _ => None
      end
  end.

(** An object has one property for a key. The values of the model that
    stand for JavaScript values are those whose objects, at every depth,
    list a key once. *)
Fixpoint distinctKeys (v : Value) : bool :=
  match v with
  | Obj o =>
      bool_decide (NoDup (map fst o)) && forallb (fun kv => distinctKeys (snd kv)) o
  | Arr items => forallb distinctKeys items
  | _ => true
  end.

(** JavaScript's truthiness of [object[key]]. *)
Definition truthy (v : option Value) : bool :=
  match v with
  | None => false
  | Some Null => false
  | Some (Bool b) => b
  | Some (Number n) => negb (n =? 0)
  | Some (Str s) => negb (String.eqb s "")
  | Some (Arr _) => true
  | Some (Obj _) => true
  end.

(** [value === text] for a string [text]. *)
Definition isString (text : string) (v : option Value) : bool :=
  match v with
  | Some (Str s) => String.eqb s text
  | _ => false
  end.

End Json.

(** ** The configuration: [defaultConfig] and its merge with an override *)

Module Config.
Import Json.

(** Modelled from the spec: the package merge-options, which
    [lintFile] calls as [mergeOptions(defaultConfig, config)], is not part
    of the sources. The specification describes it as a deep merge in
    which the override wins leaf by leaf; the model follows the package's
    documented default behaviour: two objects are merged key by key, and
    in every other case (a string, a number, an array on either side) the
    value of the override replaces the one it meets. *)
Fixpoint merge (merged source : Value) {struct source} : Value :=
  match source with
  | Obj sources =>
      match merged with
      | Obj mergeds =>
          Obj (fold_left
                 (fun acc kv =>
                    match get (fst kv) acc with
                    | Some m => define (fst kv) (merge m (snd kv)) acc
                    | None => define (fst kv) (snd kv) acc
                    end)
                 sources mergeds)
      | _ => source
      end
  | _ => source
  end.

(** The step of the merge of two objects, on one property of the
    override. *)
Definition mergeKey (acc : Object) (kv : string * Value) : Object :=
  match get (fst kv) acc with
  | Some m => define (fst kv) (merge m (snd kv)) acc
  | None => define (fst kv) (snd kv) acc
  end.

Definition isOptionObject (v : Value) : bool :=
  match v with
  | Obj _ => true
  | _ => false
  end.

(** Modelled from the spec: [mergeOptions(...options)] of the same
    package. It starts from an empty object, merges the options into it from
    left to right and throws a [TypeError] on an option that is not an
    object. *)
Definition mergeOptions (options : list Value) : Js.Completion Value :=
  fold_left
    (fun acc option =>
       let! merged := acc in
       if isOptionObject option then Js.ret (merge merged option)
       else Js.throw (Js.TypeError "not an Option Object"))
    options (Js.ret (Obj [])).

Definition rule (name status : string) : string * Value := (name, Str status).
Definition convention (name : string) (values : list string) : string * Value :=
  (name, Arr (map Str values)).

(** [defaultConfig] of [source/config.ts]. *)
Definition defaultConfig : Value :=
  Obj [
    ("shared", Obj [
      ("operations", Obj [
        rule "no_operation_id" "warning";
        convention "operation_id_case_convention" ["off"; "lower_camel_case"];
        rule "no_summary" "warning";
        rule "parameter_order" "error";
        rule "undefined_tag" "error";
        rule "unused_tag" "error";
        rule "operation_id_naming_convention" "off";
        rule "no_array_responses" "off"
      ]);
      ("pagination", Obj [
        rule "pagination_style" "error"
      ]);
      ("parameters", Obj [
        rule "no_parameter_description" "hint";
        convention "param_name_case_convention" ["off"];
        rule "invalid_type_format_pair" "error";
        rule "content_type_parameter" "error";
        rule "accept_type_parameter" "error";
        rule "authorization_parameter" "error";
        rule "required_param_has_default" "error"
      ]);
      ("paths", Obj [
        rule "missing_path_parameter" "error";
        rule "duplicate_path_parameter" "error";
        convention "paths_case_convention" ["off"]
      ]);
      ("responses", Obj [
        rule "inline_response_schema" "off"
      ]);
      ("security_definitions", Obj [
        rule "unused_security_schemes" "error";
        rule "unused_security_scopes" "error"
      ]);
      ("security", Obj [
        rule "invalid_non_empty_security_array" "error"
      ]);
      ("schemas", Obj [
        rule "invalid_type_format_pair" "off";
        rule "snake_case_only" "off";
        rule "no_schema_description" "hint";
        rule "no_property_description" "hint";
        rule "description_mentions_json" "off";
        rule "array_of_arrays" "off";
        convention "property_case_convention" ["off"];
        rule "property_case_collision" "warning";
        convention "enum_case_convention" ["off"];
        rule "undefined_required_properties" "error";
        convention "inconsistent_property_type" ["off"]
      ]);
      ("walker", Obj [
        rule "no_empty_descriptions" "error";
        rule "has_circular_references" "warning";
        rule "$ref_siblings" "off";
        rule "duplicate_sibling_description" "error";
        rule "incorrect_ref_pattern" "error"
      ])
    ]);
    ("swagger2", Obj [
      ("operations", Obj [
        rule "no_consumes_for_put_or_post" "error";
        rule "get_op_has_consumes" "warning";
        rule "no_produces" "warning"
      ])
    ]);
    ("oas3", Obj [
      ("operations", Obj [
        rule "no_request_body_name" "off"
      ]);
      ("responses", Obj [
        rule "no_success_response_codes" "warning";
        rule "protocol_switching_and_success_code" "error";
        rule "no_response_body" "error";
        rule "ibm_status_code_guidelines" "off"
      ]);
      ("schemas", Obj [
        rule "json_or_param_binary_string" "error"
      ])
    ]);
    ("spectral", Obj [
      ("rules", Obj [
        rule "no-eval-in-markdown" "error";
        rule "no-script-tags-in-markdown" "error";
        rule "openapi-tags" "warning";
        rule "operation-description" "hint";
        rule "operation-tags" "warning";
        rule "operation-tag-defined" "warning";
        rule "path-keys-no-trailing-slash" "error";
        rule "typed-enum" "error";
        rule "request-body-object" "off";
        rule "oas2-api-host" "error";
        rule "oas2-api-schemes" "error";
        rule "oas2-host-trailing-slash" "error";
        rule "oas2-valid-example" "error";
        rule "oas2-anyOf" "error";
        rule "oas2-oneOf" "error";
        rule "oas3-api-servers" "off";
        rule "oas3-examples-value-or-externalValue" "error";
        rule "oas3-server-trailing-slash" "error";
        rule "oas3-valid-example" "error";
        rule "oas3-valid-schema-example" "off";
        rule "response-example-provided" "hint";
        rule "response-error-response-schema" "off";
        rule "content-entry-contains-schema" "error";
        rule "content-entry-provided" "off"
      ])
    ])
  ].

(** A path of keys is left open by an override when the override stops
    short of it: along the path the override holds objects, and one of them
    lacks the next key. *)
Fixpoint unspecified (keys : list string) (override : Value) : Prop :=
  match keys with
  | [] => False
  | k :: keys' =>
      match override with
      | Obj o =>
          match get k o with
          | Some v => unspecified keys' v
          | None => True
          end
      | _ => False
      end
  end.

(** The override of the README: one rule of one category. *)
Definition unusedTagWarning : Value :=
  Obj [("shared", Obj [("operations", Obj [rule "unused_tag" "warning"])])].

End Config.

(** ** Linting one file: [lintFile] *)

Module Lint.
Import Json.

Definition quote : string := String "034" "".

(** The message of the error of line 729. *)
Definition descriptorMissing : string :=
  "Neither a `openapi` property nor a `swagger` property with the value of "
  ++ quote ++ "2.0" ++ quote ++ " was found".

(** What a parser returns: a JSON value, or [undefined], written [None].
    js-yaml's [load] returns [undefined] for an empty file; [JSON.parse]
    never does, and both can return [null]. The source casts the result to
    [JsonObject] and does not test it. *)
Definition Document : Type := option Value.

(** What [lintFile] calls outside the repository: the file system, the
    two parsers, the preprocessing of the validator, [path.extname], and
    the validation proper (lines 734 to 745: the set-up of the rule engine,
    [buildSwagger], [runSpectral], [validate] and
    [formatResultsAsObject]). A parser returns the message of its error when
    it fails. *)
Record Engines : Type := {
  readFile : string -> Js.Completion string;
  stripBom : string -> string;
  preprocessFile : string -> string;
  extname : string -> string;
  parseJson : string -> string + Value;
  parseYaml : string -> string + Document;
  validate : Document -> Value -> string -> string -> Js.Completion Report.Result
}.

(** [string.slice(1)]. *)
Definition slice1 (s : string) : string :=
  match s with
  | EmptyString => EmptyString
  | String _ s' => s'
  end.

Definition parseFileContents (G : Engines) (contents filepath : string)
    : Js.Completion Document :=
  let fileExtension := slice1 (extname G filepath) in
  if String.eqb fileExtension "json" then
    match parseJson G contents with
    | inl m => Js.throw (Js.JSONError m)
    | inr data => Js.ret (Some data)
    end
  else if String.eqb fileExtension "yaml" || String.eqb fileExtension "yml" then
    match parseYaml G contents with
    | inl m => Js.throw (Js.YAMLException m)
    | inr data => Js.ret data
    end
  else Js.throw (Js.Error "Unable to parse file").

(** [data[key]] for one of the two keys that line 728 reads. Reading a
    property of [undefined] or [null] throws a [TypeError]; an object gives
    the value of its property; a string, a number, a boolean or an array has
    no such property and gives [undefined]. *)
Definition property (key : string) (data : Document) : Js.Completion (option Value) :=
  match data with
  | None =>
      Js.throw (Js.TypeError
        ("Cannot read properties of undefined (reading '" ++ key ++ "')"))
  | Some Null =>
      Js.throw (Js.TypeError
        ("Cannot read properties of null (reading '" ++ key ++ "')"))
  | Some (Obj o) => Js.ret (get key o)
  | Some _ => Js.ret None
  end.

(** The test of line 728, [data.openapi || data.swagger === "2.0"]: the
    second operand is read only when the first is falsy. *)
Definition hasDescriptor (data : Document) : Js.Completion bool :=
  let! openapi := property "openapi" data in
  if truthy openapi then Js.ret true
  else
    let! swagger := property "swagger" data in
    Js.ret (isString "2.0" swagger).

Definition lintFile (G : Engines) (filepath : string) (config : Value)
    : Js.Completion Report.Result :=
  let! raw := readFile G filepath in
  let contents := preprocessFile G (stripBom G raw) in
  let! data := parseFileContents G contents filepath in
  let! found := hasDescriptor data in
  if negb found then Js.throw (Js.Error descriptorMissing)
  else
    let! config := Config.mergeOptions [Config.defaultConfig; config] in
    validate G data config contents filepath.

(** An error that the parsing step raises: one of the two parsers' own
    errors, or the error of line 683. *)
Definition isParseError (e : Js.Thrown) : bool :=
  match e with
  | Js.JSONError _ | Js.YAMLException _ => true
  | Js.Error m => String.eqb m "Unable to parse file"
  | _ => false
  end.

End Lint.

(** ** The command line: [cli.ts] *)

Module Cli.
Import Report.

(** What the script reads: the terminal; the flag [--verbose] and the
    text that [console.log] prints for [results]; the files that a list of
    patterns matches ([globby]); the configuration that [loadConfig] found
    and whether [validateConfig] marks it invalid; and the store that holds
    the arrays of the results.

    [pMap] is called without a limit, so the callbacks of all files run at
    the same time, over one working directory that [runInDirectory]
    changes. What the call of [lintFile] for one file meets therefore
    depends on the other calls: [engines S file] is the file system and the
    engines as the call for [file] meets them in this run, and
    [settleOrder S files] is the order in which the callbacks settle. *)
Record Setup : Type := {
  terminal : Env;
  verbose : bool;
  inspect : list (string * Result) -> string;
  engines : string -> Lint.Engines;
  settleOrder : list string -> list string;
  globby : list string -> list string;
  config : Json.Value;
  invalid : bool;
  heap : Store
}.

(** What a run leaves behind: the lines written by [console.log], the
    argument of [process.exit] when the script calls it, and the value of
    [process.exitCode], 0 unless the script sets it. An exception that
    leaves the script is kept in [uncaught]. *)
Record Outcome : Type := {
  stdout : list string;
  exited : option Z;
  exitCode : Z;
  uncaught : option Js.Thrown
}.

(** The exit status of the process: the argument of [process.exit]; 1
    when an exception leaves the script, as Node ends a process on an
    uncaught exception; and [process.exitCode] otherwise. *)
Definition exitStatus (o : Outcome) : Z :=
  match exited o with
  | Some status => status
  | None =>
      match uncaught o with
      | Some _ => 1
      | None => exitCode o
      end
  end.

(** The callback of [pMap], lines 71 to 81, on one file: the lines it
    logs, and its entry in [results], [None] for [pMapSkip]. *)
Definition lintOne (S : Setup) (isAutoDetectedFiles : bool) (file : string)
    : list string * option (string * Result) :=
  match Lint.lintFile (engines S file) file (config S) with
  | inr result => ([], Some (file, result))
  | inl e =>
      (if Js.isError e
          && negb (isAutoDetectedFiles
                   && String.eqb (Js.message e) Lint.descriptorMissing)
       then [red (terminal S) (Js.message e)] else [],
       None)
  end.

(** [pMap(files, callback)]: the entries of the callbacks in the order of
    the files, whatever the order in which they settle, without the skipped
    ones; and the lines that the callbacks log, in the order in which they
    settle. *)
Definition lintAll (S : Setup) (isAutoDetectedFiles : bool) (files : list string)
    : list string * list (string * Result) :=
  (flat_map (fun file => fst (lintOne S isAutoDetectedFiles file)) (settleOrder S files),
   omap (fun file => snd (lintOne S isAutoDetectedFiles file)) files).

(** [results.some(([_, {errors = []}]) => errors.length > 0)]. *)
Definition someErrors (s : Store) (results : list (string * Result)) : bool :=
  existsb (fun fr => (0 <? length (readField s (errors (snd fr))))%nat) results.

(** The script, from line 54 on. *)
Definition main (S : Setup) (input : list string) : Outcome :=
  if invalid S then
    {| stdout := []; exited := Some 2; exitCode := 0; uncaught := None |}
  else
    let isAutoDetectedFiles := (length input =? 0)%nat in
    let files :=
      if isAutoDetectedFiles then globby S ["**/*.{yaml,yml,json}"] else globby S input in
    let (logs, results) := lintAll S isAutoDetectedFiles files in
    let logs := if verbose S then (logs ++ [inspect S results])%list else logs in
    if (length results =? 0)%nat then
      {| stdout := (logs ++ ["No files to lint"])%list;
         exited := Some 2; exitCode := 0; uncaught := None |}
    else
      let code := if someErrors (heap S) results then 1 else 0 in
      match snd (formatResults (terminal S) results (heap S)) with
      | inr report =>
          {| stdout := (logs ++ [report])%list;
             exited := None; exitCode := code; uncaught := None |}
      | inl e =>
          {| stdout := logs; exited := None; exitCode := code; uncaught := Some e |}
      end.

(** The files that [main] lints, and the results that it reports. *)
Definition lintedFiles (S : Setup) (input : list string) : list string :=
  if (length input =? 0)%nat then globby S ["**/*.{yaml,yml,json}"] else globby S input.

Definition lintedResults (S : Setup) (input : list string) : list (string * Result) :=
  snd (lintAll S (length input =? 0)%nat (lintedFiles S input)).

(** *** Some set-ups *)

(** Engines for a directory with three YAML files: [api.yaml] declares
    [openapi: 3.0.0], [notes.yaml] has no descriptor and [empty.yaml] is
    empty. The validation finds what [found] says. *)
Definition sampleEngines (found : Result) : Lint.Engines := {|
  Lint.readFile := fun file => Js.ret file;
  Lint.stripBom := fun text => text;
  Lint.preprocessFile := fun text => text;
  Lint.extname := fun file => ".yaml";
  Lint.parseJson := fun text => inl "Unexpected token";
  Lint.parseYaml := fun text =>
    if String.eqb text "api.yaml"
    then inr (Some (Json.Obj [("openapi", Json.Str "3.0.0")]))
    else if String.eqb text "empty.yaml" then inr None
    else inr (Some (Json.Obj [("title", Json.Str "notes")]));
  Lint.validate := fun data config contents file => Js.ret found
|}.

(** A run in which no call disturbs another and the callbacks settle in
    the order of the files. *)
Definition sampleSetup (found : Result) (store : Store) : Setup := {|
  terminal := plain;
  verbose := false;
  inspect := fun results => "[results]";
  engines := fun file => sampleEngines found;
  settleOrder := fun files => files;
  globby := fun patterns =>
    match patterns with
    | ["**/*.{yaml,yml,json}"] => ["api.yaml"; "notes.yaml"]
    | _ => patterns
    end;
  config := Json.Obj [];
  invalid := false;
  heap := store
|}.

(** Engines for a directory with more kinds of files: [api.json] is not
    valid JSON, [README.md] has an extension that is not supported, and
    [gone.yaml] cannot be read. *)
Definition strictEngines : Lint.Engines := {|
  Lint.readFile := fun file =>
    if String.eqb file "gone.yaml"
    then Js.throw (Js.Error "ENOENT: no such file or directory, open 'gone.yaml'")
    else Js.ret file;
  Lint.stripBom := fun text => text;
  Lint.preprocessFile := fun text => text;
  Lint.extname := fun file =>
    if String.eqb file "api.json" then ".json"
    else if String.eqb file "README.md" then ".md" else ".yaml";
  Lint.parseJson := fun text => inl "Unexpected token";
  Lint.parseYaml := fun text => inr (Some (Json.Obj [("openapi", Json.Str "3.0.0")]));
  Lint.validate := fun data config contents file => Js.ret (onlyErrors 0)
|}.

(** The same directory, with [--verbose]; [missing.yaml] does not exist,
    so [globby] does not match it. *)
Definition strictSetup : Setup := {|
  terminal := plain;
  verbose := true;
  inspect := fun results => if (length results =? 0)%nat then "[]" else "[results]";
  engines := fun file => strictEngines;
  settleOrder := fun files => rev files;
  globby := fun patterns =>
    List.filter (fun file => negb (String.eqb file "missing.yaml")) patterns;
  config := Json.Obj [];
  invalid := false;
  heap := errorStore
|}.

End Cli.

(** * Properties *)

(** ** Facts on the array functions *)

Module JsFacts.
Import Js.


Section SortFacts.
Context {A : Type} (compare : A -> A -> Z).

Lemma insert_perm x l : Permutation (insert compare x l) (x :: l).
Proof.
  induction l as [|y l IH]; simpl; [reflexivity|].
  destruct (compare x y <=? 0); [reflexivity|].
  rewrite IH. apply perm_swap.
Qed.

Lemma sort_perm l : Permutation (sort compare l) l.
Proof.
  induction l as [|x l IH]; simpl; [reflexivity|].
  rewrite insert_perm. now constructor.
Qed.

Lemma sort_length l : length (sort compare l) = length l.
Proof. apply Permutation_length, sort_perm. Qed.

Lemma sort_In x l : In x (sort compare l) <-> In x l.
Proof.
  split; apply Permutation_in; [|symmetry]; apply sort_perm.
Qed.

(** An array that is in order is left as it is. *)
Lemma sort_sorted_id l : Sorted (le compare) l -> sort compare l = l.
Proof.
  induction 1 as [|x l Hs IH Hd]; simpl; [reflexivity|].
  rewrite IH. destruct Hd as [|y l Hxy]; simpl; [reflexivity|].
  unfold le in Hxy. apply Z.leb_le in Hxy. now rewrite Hxy.
Qed.

(** Stability: the elements of a class of elements that compare as equal
    keep their order. *)
Lemma insert_stable (p : A -> bool) x l :
  (forall a b, p a = true -> p b = true -> compare a b <= 0) ->
  List.filter p (insert compare x l) = List.filter p (x :: l).
Proof.
  intros Hp. induction l as [|y l IH]; simpl; [reflexivity|].
  destruct (compare x y <=? 0) eqn:Hxy; [reflexivity|].
  simpl. rewrite IH. simpl.
  destruct (p x) eqn:Hx, (p y) eqn:Hy; try reflexivity.
  apply Z.leb_gt in Hxy. specialize (Hp x y Hx Hy). lia.
Qed.

Lemma sort_stable (p : A -> bool) l :
  (forall a b, p a = true -> p b = true -> compare a b <= 0) ->
  List.filter p (sort compare l) = List.filter p l.
Proof.
  intros Hp. induction l as [|x l IH]; simpl; [reflexivity|].
  rewrite insert_stable by assumption. simpl. now rewrite IH.
Qed.

Section Total.
Hypothesis compare_total : forall x y, 0 < compare x y -> compare y x <= 0.

Lemma insert_sorted x l : Sorted (le compare) l -> Sorted (le compare) (insert compare x l).
Proof.
  induction 1 as [|y l Hs IH Hd]; simpl.
  - repeat constructor.
  - destruct (compare x y <=? 0) eqn:Hxy.
    + apply Z.leb_le in Hxy. repeat constructor; assumption.
    + apply Z.leb_gt in Hxy. constructor; [assumption|].
      destruct Hd as [|z l Hyz]; simpl.
      * constructor. now apply compare_total.
      * destruct (compare x z <=? 0); constructor;
          [now apply compare_total | assumption].
Qed.

Lemma sort_sorted l : Sorted (le compare) (sort compare l).
Proof.
  induction l as [|x l IH]; simpl; [constructor | now apply insert_sorted].
Qed.

Lemma sort_idempotent l : sort compare (sort compare l) = sort compare l.
Proof. apply sort_sorted_id, sort_sorted. Qed.
End Total.
End SortFacts.

End JsFacts.

(** ** The working directory *)

Module ProcessFacts.
Import Process.

(** When the callback resolves and the original directory still exists,
    the working directory is restored. *)
Lemma runInDirectory_resolves {T} directory (callback : Callback T) w w1 w2 result :
  chdir directory w = (w1, inr tt) ->
  callback w1 = (w2, inr result) ->
  resolve w2 (cwd w2) (cwd w) = Some (cwd w) ->
  exists w3, runInDirectory directory callback w = (w3, inr result) /\ cwd w3 = cwd w.
Proof.
  intros Hin Hcall Hback. unfold runInDirectory. rewrite Hin, Hcall.
  unfold chdir. rewrite Hback. eexists. split; reflexivity.
Qed.

(** When the callback rejects, [runInDirectory] rejects with the state
    that the callback left: line 690 is not reached. *)
Lemma runInDirectory_rejects {T} directory (callback : Callback T) w w1 w2 e :
  chdir directory w = (w1, inr tt) ->
  callback w1 = (w2, inl e) ->
  runInDirectory directory callback w = (w2, inl e).
Proof.
  intros Hin Hcall. unfold runInDirectory. now rewrite Hin, Hcall.
Qed.

(** C1, at a failing delegated call: the process starts in [/repo], the
    callback rejects, and the process is left in [/repo/specs]. *)
Theorem runInDirectory_leaves_directory_on_rejection :
  cwd repo = "/repo"
  /\ snd (runInDirectory "specs" failing repo) = inl (Js.Error "engine failure")
  /\ cwd (fst (runInDirectory "specs" failing repo)) = "/repo/specs"
  /\ cwd (fst (runInDirectory "specs" failing repo)) <> cwd repo.
Proof.
  repeat split; try reflexivity. vm_compute. discriminate.
Qed.

(** On the same process a callback that resolves leaves it in [/repo]. *)
Example runInDirectory_restores_on_success :
  snd (runInDirectory "specs" succeeding repo) = inr tt
  /\ cwd (fst (runInDirectory "specs" succeeding repo)) = "/repo".
Proof. split; reflexivity. Qed.

End ProcessFacts.

(** ** The report *)

Module ReportFacts.
Import Js JsFacts Report.

Lemma compareLine_total a b : 0 < compareLine a b -> compareLine b a <= 0.
Proof. unfold compareLine, numberSortAscending. lia. Qed.

Lemma le_compareLine a b : le compareLine a b <-> line a <= line b.
Proof. unfold le, compareLine, numberSortAscending. lia. Qed.

(** *** The store after the sorts *)

Lemma read_sortInPlace a s l :
  read (sortInPlace a s) l =
  if decide (a = l) then sort compareLine (read s a) else read s l.
Proof.
  unfold sortInPlace, read. destruct (decide (a = l)) as [->|Hne].
  - destruct (decide (l < length s)%nat) as [Hlt|Hge].
    + now rewrite list_lookup_insert_eq by assumption.
    + rewrite list_insert_ge by lia.
      rewrite (lookup_ge_None_2 s l) by lia. reflexivity.
  - now rewrite list_lookup_insert_ne by assumption.
Qed.

Lemma length_sortInPlace a s : length (sortInPlace a s) = length s.
Proof. unfold sortInPlace. apply length_insert. Qed.

Lemma sortLocations_app ls ls' s :
  sortLocations (ls ++ ls') s = sortLocations ls' (sortLocations ls s).
Proof. apply fold_left_app. Qed.

Lemma sortResult_locations r s : sortResult r s = sortLocations (locations r) s.
Proof.
  unfold sortResult, locations.
  destruct (errors r), (warnings r), (infos r), (hints r); reflexivity.
Qed.

Lemma sortResults_locations results s :
  sortResults results s = sortLocations (allLocations results) s.
Proof.
  revert s. induction results as [|fr results IH]; intros s; [reflexivity|].
  unfold sortResults, allLocations in *. simpl.
  rewrite sortLocations_app, IH, sortResult_locations. reflexivity.
Qed.

Lemma read_sortLocations ls s l :
  read (sortLocations ls s) l =
  if decide (l ∈ ls) then sort compareLine (read s l) else read s l.
Proof.
  revert s. induction ls as [|a ls IH]; intros s; simpl.
  - destruct (decide (l ∈ [])) as [H|H]; [inversion H | reflexivity].
  - rewrite IH, read_sortInPlace.
    destruct (decide (a = l)) as [->|Hne].
    + destruct (decide (l ∈ ls)), (decide (l ∈ l :: ls)) as [H|H];
        try reflexivity; try (exfalso; apply H; constructor).
      apply sort_idempotent, compareLine_total.
    + destruct (decide (l ∈ ls)) as [Hl|Hl], (decide (l ∈ a :: ls)) as [H|H];
        try reflexivity.
      * exfalso. apply H. now constructor.
      * exfalso. apply elem_of_cons in H as [->|H]; [now apply Hne | now apply Hl].
Qed.

(** After the sorts an array holds its messages in the stable order of
    their lines when a result names it, and is as before otherwise. *)
Lemma read_sortResults_named results s l :
  In l (allLocations results) ->
  read (sortResults results s) l = sort compareLine (read s l).
Proof.
  intros H. rewrite sortResults_locations, read_sortLocations.
  destruct (decide (l ∈ allLocations results)) as [_|Hn]; [reflexivity|].
  exfalso. now apply Hn, list_elem_of_In.
Qed.

Lemma read_sortResults_other results s l :
  ~ In l (allLocations results) ->
  read (sortResults results s) l = read s l.
Proof.
  intros H. rewrite sortResults_locations, read_sortLocations.
  destruct (decide (l ∈ allLocations results)) as [Hn|_]; [|reflexivity].
  exfalso. now apply H, list_elem_of_In.
Qed.

Lemma length_sortResults results s : length (sortResults results s) = length s.
Proof.
  rewrite sortResults_locations. generalize (allLocations results) as ls.
  intros ls. revert s. induction ls as [|a ls IH]; intros s; simpl; [reflexivity|].
  unfold sortLocations in IH. rewrite IH. apply length_sortInPlace.
Qed.

(** *** The results after the sorts *)

Lemma locations_errors r l : errors r = Some l -> In l (locations r).
Proof. unfold locations. intros ->. simpl. now left. Qed.

Lemma locations_warnings r l : warnings r = Some l -> In l (locations r).
Proof.
  unfold locations. intros ->. simpl.
  destruct (errors r); simpl; [right|]; now left.
Qed.

Lemma locations_infos r l : infos r = Some l -> In l (locations r).
Proof.
  unfold locations. intros ->. simpl.
  destruct (errors r), (warnings r); simpl; auto.
Qed.

Lemma locations_hints r l : hints r = Some l -> In l (locations r).
Proof.
  unfold locations. intros ->. simpl.
  destruct (errors r), (warnings r), (infos r); simpl; auto 6.
Qed.

Lemma allLocations_In results fr l :
  In fr results -> In l (locations (snd fr)) -> In l (allLocations results).
Proof.
  intros Hfr Hl. unfold allLocations. apply in_flat_map. eauto.
Qed.

Lemma readField_sortResults results s field :
  (forall l, field = Some l -> In l (allLocations results)) ->
  readField (sortResults results s) field = sort compareLine (readField s field).
Proof.
  intros H. destruct field as [l|]; simpl; [|reflexivity].
  apply read_sortResults_named. now apply H.
Qed.

Lemma readResults_sortResults results s :
  readResults (sortResults results s) results = sortedResults s results.
Proof.
  unfold readResults, sortedResults. apply map_ext_in. intros fr Hfr.
  f_equal. unfold readResult, sortedBuckets.
  f_equal; apply readField_sortResults; intros l Hl;
    apply (allLocations_In results fr l Hfr);
    eauto using locations_errors, locations_warnings, locations_infos, locations_hints.
Qed.

Lemma blockOrder_sortedResults s results :
  blockOrder s results = sort compareFiles (sortedResults s results).
Proof. unfold blockOrder. now rewrite readResults_sortResults. Qed.

(** *** The totals *)

Lemma totals_fold E results t :
  let t' := fold_left (fun t fb => addTotals E t (snd fb)) results t in
  totalErrors t' = (totalErrors t + countOf b_errors results)%nat
  /\ totalWarnings t' = (totalWarnings t + countOf b_warnings results)%nat
  /\ totalInfos t' = (totalInfos t + countOf b_infos results)%nat
  /\ totalHints t' = (totalHints t + countOf b_hints results)%nat.
Proof.
  revert t. induction results as [|fb results IH]; intros t; simpl.
  - unfold countOf. simpl. lia.
  - specialize (IH (addTotals E t (snd fb))). simpl in IH.
    unfold countOf in *. simpl. lia.
Qed.

Lemma totals_counts E results :
  totalErrors (totals E results) = countOf b_errors results
  /\ totalWarnings (totals E results) = countOf b_warnings results
  /\ totalInfos (totals E results) = countOf b_infos results
  /\ totalHints (totals E results) = countOf b_hints results.
Proof. apply (totals_fold E results noTotals). Qed.

Lemma countOf_sum results :
  (countOf b_errors results + countOf b_warnings results
   + countOf b_infos results + countOf b_hints results)%nat
  = list_sum (map (fun fb => bucketSizes (snd fb)) results).
Proof.
  unfold countOf, bucketSizes.
  induction results as [|fb results IH]; simpl; lia.
Qed.

Lemma bucketSizes_sorted s r :
  bucketSizes (sortedBuckets s r) = bucketSizes (readResult s r).
Proof.
  unfold bucketSizes, sortedBuckets, readResult. simpl.
  now rewrite !sort_length.
Qed.

Lemma messageCount_sorted s results :
  list_sum (map (fun fb => bucketSizes (snd fb)) (sortedResults s results))
  = messageCount s results.
Proof.
  unfold messageCount, sortedResults. rewrite map_map. f_equal.
  apply map_ext. intros fr. simpl. apply bucketSizes_sorted.
Qed.

(** The total that line 797 tests is the number of messages of the run. *)
Lemma totals_messageCount E s results :
  let t := totals E (sortedResults s results) in
  (totalErrors t + totalWarnings t + totalInfos t + totalHints t)%nat
  = messageCount s results.
Proof.
  intros t. subst t.
  destruct (totals_counts E (sortedResults s results)) as (-> & -> & -> & ->).
  now rewrite countOf_sum, messageCount_sorted.
Qed.

(** *** The shape of the result *)

Lemma formatResults_store E results s :
  fst (formatResults E results s) = sortResults results s.
Proof.
  unfold formatResults. destruct (_ =? _)%nat; reflexivity.
Qed.

Lemma append_assoc (a b c : string) : (a ++ b) ++ c = a ++ (b ++ c).
Proof.
  induction a as [|x a IH]; [reflexivity|].
  change (String x ((a ++ b) ++ c) = String x (a ++ b ++ c)). now rewrite IH.
Qed.

Lemma formatResults_clean E results s :
  messageCount s results = 0%nat ->
  formatResults E results s = (sortResults results s, inr "").
Proof.
  intros H0. unfold formatResults.
  rewrite readResults_sortResults, totals_messageCount, H0. reflexivity.
Qed.

Lemma statistics_nonempty E t :
  (totalErrors t + totalWarnings t + totalInfos t + totalHints t)%nat <> 0%nat ->
  (0 <? length (statistics E t))%nat = true.
Proof.
  intros H. apply Nat.ltb_lt. unfold statistics, statistic.
  rewrite !length_app.
  destruct (totalHints t), (totalInfos t), (totalWarnings t), (totalErrors t);
    simpl; lia.
Qed.

(** With at least one message the result is the header, the blocks of
    the files in their order and the statistics, unless a line throws. *)
Lemma formatResults_report E results s :
  messageCount s results <> 0%nat ->
  snd (formatResults E results s) =
  let! blocks :=
    mapM (formatBlock E (lineWidth E s results) (messageWidth E s results))
      (blockOrder s results) in
  ret (header E ++ join nl blocks
       ++ footer E (countOf b_hints (sortedResults s results))
            (countOf b_infos (sortedResults s results))
            (countOf b_warnings (sortedResults s results))
            (countOf b_errors (sortedResults s results))).
Proof.
  intros Hn. unfold formatResults, blockOrder, lineWidth, messageWidth.
  rewrite readResults_sortResults.
  pose proof (totals_messageCount E s results) as Ht. simpl in Ht.
  set (t := totals E (sortedResults s results)) in *.
  destruct (_ =? _)%nat eqn:H0; [apply Nat.eqb_eq in H0; lia|].
  simpl. rewrite statistics_nonempty by lia.
  destruct (totals_counts E (sortedResults s results)) as (He & Hw & Hi & Hh).
  fold t in He, Hw, Hi, Hh.
  unfold footer, statistics, header. rewrite He, Hw, Hi, Hh.
  destruct (mapM _ _) as [e|blocks]; simpl; [reflexivity|].
  destruct (isTTY E && negb (CI E)); now rewrite ?append_assoc.
Qed.

(** *** Lines and blocks *)

Lemma repeat_inr s n : 0 <= n -> repeat s n = inr (String.concat "" (List.repeat s (Z.to_nat n))).
Proof. intros H. unfold repeat. destruct (n <? 0) eqn:E; [lia | reflexivity]. Qed.

Lemma repeat_inl s n : n < 0 -> repeat s n = inl (RangeError "Invalid count value").
Proof. intros H. unfold repeat. destruct (n <? 0) eqn:E; [reflexivity | lia]. Qed.

Lemma formatLine_fits E type w1 w2 m :
  fits E w1 w2 m -> formatLine E type w1 w2 m = inr (lineText E type w1 w2 m).
Proof.
  intros [H1 H2]. unfold formatLine, lineText.
  rewrite !repeat_inr by lia. simpl.
  replace (Z.to_nat (Z.of_nat w1 - Z.of_nat (stringWidth E (toString (line m)))))
    with (w1 - stringWidth E (toString (line m)))%nat by lia.
  replace (Z.to_nat (Z.of_nat w2 - Z.of_nat (stringWidth E (message m))))
    with (w2 - stringWidth E (message m))%nat by lia.
  reflexivity.
Qed.

Lemma formatLine_throws E type w1 w2 m :
  ~ fits E w1 w2 m ->
  formatLine E type w1 w2 m = inl (RangeError "Invalid count value").
Proof.
  intros H. unfold formatLine, fits in *.
  destruct (decide (stringWidth E (toString (line m)) <= w1)%nat) as [H1|H1].
  - rewrite (repeat_inr _ (_ - _)) by lia. simpl.
    rewrite repeat_inl by lia. reflexivity.
  - rewrite repeat_inl by lia. reflexivity.
Qed.

Lemma formatLine_cases E type w1 w2 m :
  fits E w1 w2 m /\ formatLine E type w1 w2 m = inr (lineText E type w1 w2 m)
  \/ ~ fits E w1 w2 m
     /\ formatLine E type w1 w2 m = inl (RangeError "Invalid count value").
Proof.
  destruct (decide (stringWidth E (toString (line m)) <= w1)%nat) as [H1|H1];
  [destruct (decide (stringWidth E (message m) <= w2)%nat) as [H2|H2]|].
  - left. split; [split; assumption|]. now apply formatLine_fits.
  - right. assert (~ fits E w1 w2 m) by (unfold fits; lia).
    split; [assumption | now apply formatLine_throws].
  - right. assert (~ fits E w1 w2 m) by (unfold fits; lia).
    split; [assumption | now apply formatLine_throws].
Qed.


Lemma mapM_formatLine_inr E type w1 w2 l ts :
  mapM (formatLine E type w1 w2) l = inr ts ->
  Forall (fits E w1 w2) l /\ ts = map (lineText E type w1 w2) l.
Proof.
  revert ts. induction l as [|m l IH]; intros ts H; simpl in H.
  - injection H as <-. split; constructor.
  - destruct (formatLine_cases E type w1 w2 m) as [[Hf Hm]|[Hf Hm]];
      rewrite Hm in H; simpl in H; [|discriminate].
    destruct (mapM _ l) as [e|ts'] eqn:Hl; simpl in H; [discriminate|].
    injection H as <-. destruct (IH ts' eq_refl) as [Hall ->].
    split; [now constructor | reflexivity].
Qed.

Lemma mapM_formatLine_inl E type w1 w2 l e :
  mapM (formatLine E type w1 w2) l = inl e ->
  e = RangeError "Invalid count value" /\ ~ Forall (fits E w1 w2) l.
Proof.
  induction l as [|m l IH]; intros H; simpl in H; [discriminate|].
  destruct (formatLine_cases E type w1 w2 m) as [[Hf Hm]|[Hf Hm]];
    rewrite Hm in H; simpl in H.
  - destruct (mapM _ l) as [e'|ts'] eqn:Hl; simpl in H; [|discriminate].
    injection H as <-. destruct (IH eq_refl) as [-> Hn].
    split; [reflexivity|]. intros Hall. apply Hn. now inversion Hall.
  - injection H as <-. split; [reflexivity|].
    intros Hall. apply Hf. now inversion Hall.
Qed.


Lemma formatBlock_inr E w1 w2 fb text :
  formatBlock E w1 w2 fb = inr text ->
  Forall (fits E w1 w2) (allMessages (snd fb)) /\ text = blockText E w1 w2 fb.
Proof.
  destruct fb as [file b]. unfold formatBlock, allMessages. simpl. intros H.
  destruct (mapM _ (b_hints b)) as [e|hs] eqn:Hh; simpl in H; [discriminate|].
  destruct (mapM _ (b_infos b)) as [e|ins] eqn:Hi; simpl in H; [discriminate|].
  destruct (mapM _ (b_warnings b)) as [e|ws] eqn:Hw; simpl in H; [discriminate|].
  destruct (mapM _ (b_errors b)) as [e|es] eqn:He; simpl in H; [discriminate|].
  apply mapM_formatLine_inr in Hh as [Fh ->], Hi as [Fi ->], Hw as [Fw ->], He as [Fe ->].
  injection H as <-. split; [|reflexivity].
  rewrite !Forall_app. auto.
Qed.

Lemma formatBlock_inl E w1 w2 fb e :
  formatBlock E w1 w2 fb = inl e ->
  e = RangeError "Invalid count value"
  /\ ~ Forall (fits E w1 w2) (allMessages (snd fb)).
Proof.
  destruct fb as [file b]. unfold formatBlock, allMessages. simpl. intros H.
  rewrite !Forall_app.
  destruct (mapM _ (b_hints b)) as [e1|hs] eqn:Hh; simpl in H.
  { injection H as <-. apply mapM_formatLine_inl in Hh as [-> Hn]. tauto. }
  destruct (mapM _ (b_infos b)) as [e1|ins] eqn:Hi; simpl in H.
  { injection H as <-. apply mapM_formatLine_inl in Hi as [-> Hn]. tauto. }
  destruct (mapM _ (b_warnings b)) as [e1|ws] eqn:Hw; simpl in H.
  { injection H as <-. apply mapM_formatLine_inl in Hw as [-> Hn]. tauto. }
  destruct (mapM _ (b_errors b)) as [e1|es] eqn:He; simpl in H.
  { injection H as <-. apply mapM_formatLine_inl in He as [-> Hn]. tauto. }
  discriminate.
Qed.

Lemma mapM_formatBlock_inr E w1 w2 l blocks :
  mapM (formatBlock E w1 w2) l = inr blocks ->
  Forall (fun fb => Forall (fits E w1 w2) (allMessages (snd fb))) l
  /\ blocks = map (blockText E w1 w2) l.
Proof.
  revert blocks. induction l as [|fb l IH]; intros blocks H; simpl in H.
  - injection H as <-. split; constructor.
  - destruct (formatBlock E w1 w2 fb) as [e|t] eqn:Hb; simpl in H; [discriminate|].
    destruct (mapM _ l) as [e|ts] eqn:Hl; simpl in H; [discriminate|].
    injection H as <-. apply formatBlock_inr in Hb as [Hf ->].
    destruct (IH ts eq_refl) as [Hall ->]. split; [now constructor | reflexivity].
Qed.


Lemma mapM_formatBlock_inl E w1 w2 l e :
  mapM (formatBlock E w1 w2) l = inl e ->
  e = RangeError "Invalid count value"
  /\ ~ Forall (fun fb => Forall (fits E w1 w2) (allMessages (snd fb))) l.
Proof.
  induction l as [|fb l IH]; intros H; simpl in H; [discriminate|].
  destruct (formatBlock E w1 w2 fb) as [e1|t] eqn:Hb; simpl in H.
  - injection H as <-. apply formatBlock_inl in Hb as [-> Hn].
    split; [reflexivity|]. intros Hall. apply Hn. now inversion Hall.
  - destruct (mapM _ l) as [e1|ts] eqn:Hl; simpl in H; [|discriminate].
    injection H as <-. destruct (IH eq_refl) as [-> Hn].
    split; [reflexivity|]. intros Hall. apply Hn. now inversion Hall.
Qed.

(** *** The two orders *)

Lemma compareFiles_total a b : 0 < compareFiles a b -> compareFiles b a <= 0.
Proof.
  unfold compareFiles, compareResults.
  repeat match goal with
         | |- context [(?x =? ?y)%nat] => destruct (Nat.eqb_spec x y)
         end; lia.
Qed.

Lemma le_compareFiles a b : le compareFiles a b <-> descending a b.
Proof.
  unfold le, compareFiles, compareResults, descending, lexGe, counts.
  repeat match goal with
         | |- context [(?x =? ?y)%nat] => destruct (Nat.eqb_spec x y)
         end; lia.
Qed.

Lemma descending_trans a b c : descending a b -> descending b c -> descending a c.
Proof. unfold descending, lexGe, counts. lia. Qed.

Lemma sameCounts_compare k a b :
  sameCounts k a = true -> sameCounts k b = true -> compareFiles a b <= 0.
Proof.
  unfold sameCounts, compareFiles, compareResults, counts.
  destruct k as [[[e w] i] h]. rewrite !andb_true_iff, !Nat.eqb_eq.
  intros (((<- & <-) & <-) & <-) (((-> & ->) & ->) & ->).
  rewrite !Nat.eqb_refl. lia.
Qed.

Lemma lineLe_trans a b c : lineLe a b -> lineLe b c -> lineLe a c.
Proof. unfold lineLe. lia. Qed.

Lemma onLine_compare n a b :
  onLine n a = true -> onLine n b = true -> compareLine a b <= 0.
Proof.
  unfold onLine, compareLine, numberSortAscending. rewrite !Z.eqb_eq. lia.
Qed.

Lemma Sorted_impl {A} (R R' : A -> A -> Prop) l :
  (forall a b, R a b -> R' a b) -> Sorted R l -> Sorted R' l.
Proof.
  intros H. induction 1 as [|x l Hs IH Hd]; constructor; [assumption|].
  destruct Hd; constructor. now apply H.
Qed.

Lemma sort_stablySortedByLine l : stablySortedByLine l (sort compareLine l).
Proof.
  split; [apply sort_perm|]. split.
  - apply Sorted_StronglySorted; [exact lineLe_trans|].
    apply Sorted_impl with (R := le compareLine).
    + intros a b. apply le_compareLine.
    + apply sort_sorted, compareLine_total.
  - intros n. apply sort_stable, onLine_compare.
Qed.

Lemma blockOrder_descending s results :
  StronglySorted descending (blockOrder s results).
Proof.
  rewrite blockOrder_sortedResults.
  apply Sorted_StronglySorted; [exact descending_trans|].
  apply Sorted_impl with (R := le compareFiles).
  - intros a b. apply le_compareFiles.
  - apply sort_sorted, compareFiles_total.
Qed.

Lemma blockOrder_In s results fb :
  In fb (blockOrder s results) ->
  exists r, In (fst fb, r) results /\ snd fb = sortedBuckets s r.
Proof.
  rewrite blockOrder_sortedResults, sort_In. unfold sortedResults.
  rewrite in_map_iff. intros ([file r] & <- & Hin). simpl. eauto.
Qed.

(** When the call returns a report, the report is the header, the text
    of each block in the order of the files, and the statistics; and every
    line fits. *)
Lemma formatResults_inr E results s out :
  messageCount s results <> 0%nat ->
  snd (formatResults E results s) = inr out ->
  out = header E
        ++ join nl (map (blockText E (lineWidth E s results) (messageWidth E s results))
                      (blockOrder s results))
        ++ footer E (countOf b_hints (sortedResults s results))
             (countOf b_infos (sortedResults s results))
             (countOf b_warnings (sortedResults s results))
             (countOf b_errors (sortedResults s results))
  /\ Forall (fun fb => Forall (fits E (lineWidth E s results) (messageWidth E s results))
                         (allMessages (snd fb)))
       (blockOrder s results).
Proof.
  intros Hn H. rewrite formatResults_report in H by assumption.
  destruct (mapM _ _) as [e|blocks] eqn:Hb; simpl in H; [discriminate|].
  injection H as <-. apply mapM_formatBlock_inr in Hb as [Hall ->]. now split.
Qed.


(** The only exception of [formatResults] is the [RangeError] of a
    negative padding. *)
Lemma formatResults_inl E results s e :
  snd (formatResults E results s) = inl e ->
  e = RangeError "Invalid count value"
  /\ ~ Forall (fun fb => Forall (fits E (lineWidth E s results) (messageWidth E s results))
                           (allMessages (snd fb)))
         (blockOrder s results).
Proof.
  intros H. destruct (Nat.eq_dec (messageCount s results) 0%nat) as [H0|Hn].
  - rewrite formatResults_clean in H by assumption. discriminate.
  - rewrite formatResults_report in H by assumption.
    destruct (mapM _ _) as [e'|blocks] eqn:Hb; simpl in H; [|discriminate].
    injection H as <-. now apply mapM_formatBlock_inl in Hb.
Qed.

(** A run with a line that does not fit makes the call throw. *)
Lemma formatResults_throws E results s :
  messageCount s results <> 0%nat ->
  ~ Forall (fun fb => Forall (fits E (lineWidth E s results) (messageWidth E s results))
                        (allMessages (snd fb)))
      (blockOrder s results) ->
  snd (formatResults E results s) = inl (RangeError "Invalid count value").
Proof.
  intros Hn Hfits.
  destruct (snd (formatResults E results s)) as [e|out] eqn:H.
  - apply formatResults_inl in H as [-> _]. reflexivity.
  - apply formatResults_inr in H as [_ Hall]; [contradiction | assumption].
Qed.

(** *** In-place sorting of the arrays of the input *)

(** C2, as stated, fails: the array of errors of the input holds the
    messages of lines 2 and 1 in this order before the call, and those of
    lines 1 and 2 after it. *)
Lemma formatResults_reorders_input :
  In ("api.yaml", onlyErrors 0) unsortedRun
  /\ map line (read unsortedStore 0) = [2; 1]
  /\ map line (read (fst (formatResults plain unsortedRun unsortedStore)) 0) = [1; 2]
  /\ read (fst (formatResults plain unsortedRun unsortedStore)) 0 <> read unsortedStore 0.
Proof.
  split; [now left|]. split; [reflexivity|]. split; [reflexivity|].
  vm_compute. discriminate.
Qed.

(** C2, amended: the call keeps the messages of every array, sorts in
    place, by line and stably, each array that a result of the input names,
    and leaves every other array, and every array that is in the order of
    its lines already, as it is. *)
Theorem formatResults_sorts_arrays_in_place E results s l :
  length (fst (formatResults E results s)) = length s
  /\ Permutation (read (fst (formatResults E results s)) l) (read s l)
  /\ (In l (allLocations results) ->
      stablySortedByLine (read s l) (read (fst (formatResults E results s)) l))
  /\ (~ In l (allLocations results) ->
      read (fst (formatResults E results s)) l = read s l)
  /\ (Sorted lineLe (read s l) ->
      read (fst (formatResults E results s)) l = read s l).
Proof.
  rewrite formatResults_store.
  assert (Hcases : read (sortResults results s) l = sort compareLine (read s l)
                   \/ read (sortResults results s) l = read s l).
  { rewrite sortResults_locations, read_sortLocations.
    destruct (decide (l ∈ allLocations results)); auto. }
  split; [apply length_sortResults|]. split; [|split; [|split]].
  - destruct Hcases as [->| ->]; [apply sort_perm | reflexivity].
  - intros Hin. rewrite read_sortResults_named by assumption.
    apply sort_stablySortedByLine.
  - apply read_sortResults_other.
  - intros Hs. destruct Hcases as [->| ->]; [|reflexivity].
    apply sort_sorted_id. apply Sorted_impl with (R := lineLe); [|assumption].
    intros a b. apply le_compareLine.
Qed.

(** *** The order of the blocks *)

(** C4, as stated, fails: two files with one error each are printed one
    after the other, and no order of the two is strictly descending. *)
Lemma tied_files_are_not_strictly_descending :
  messageCount tiedStore tiedRun = 2%nat
  /\ map fst (blockOrder tiedStore tiedRun) = ["a.yaml"; "b.yaml"]
  /\ (exists out, snd (formatResults plain tiedRun tiedStore) = inr out)
  /\ ~ Sorted strictlyDescending (blockOrder tiedStore tiedRun)
  /\ (forall order, Permutation order (sortedResults tiedStore tiedRun) ->
      ~ Sorted strictlyDescending order).
Proof.
  split; [reflexivity|]. split; [reflexivity|]. split; [eexists; reflexivity|].
  assert (Hall : forall order, Permutation order (sortedResults tiedStore tiedRun) ->
                 ~ Sorted strictlyDescending order).
  { intros order Hp Hs.
    assert (Hc : Forall (fun fb => counts (snd fb) = (1, 0, 0, 0)%nat) order).
    { apply List.Forall_forall. intros fb Hfb.
      apply (Permutation_in _ Hp) in Hfb.
      destruct Hfb as [<-|[<-|[]]]; reflexivity. }
    apply Permutation_length in Hp. simpl in Hp.
    destruct order as [|a [|b order]]; try discriminate.
    inversion Hs as [|? ? _ Hd]; subst. inversion Hd as [|? ? Hab]; subst.
    inversion Hc as [|? ? Ha Hc']; subst. inversion Hc' as [|? ? Hb _]; subst.
    unfold strictlyDescending in Hab. rewrite Ha, Hb in Hab.
    unfold lexGt in Hab. lia. }
  split; [|exact Hall].
  apply Hall. rewrite blockOrder_sortedResults. apply sort_perm.
Qed.

(** C4, amended: when the call returns the report of a run with at least
    one message, the blocks are those of the files in an order in which the
    counts (errors, warnings, infos, hints) never increase lexicographically,
    and files with the same counts keep the order of the input. *)
Theorem blocks_are_in_descending_order_of_counts E results s out :
  messageCount s results <> 0%nat ->
  snd (formatResults E results s) = inr out ->
  out = header E
        ++ join nl (map (blockText E (lineWidth E s results) (messageWidth E s results))
                      (blockOrder s results))
        ++ footer E (countOf b_hints (sortedResults s results))
             (countOf b_infos (sortedResults s results))
             (countOf b_warnings (sortedResults s results))
             (countOf b_errors (sortedResults s results))
  /\ Permutation (blockOrder s results) (sortedResults s results)
  /\ StronglySorted descending (blockOrder s results)
  /\ forall k, List.filter (sameCounts k) (blockOrder s results)
              = List.filter (sameCounts k) (sortedResults s results).
Proof.
  intros Hn H. split; [now apply formatResults_inr|].
  split; [rewrite blockOrder_sortedResults; apply sort_perm|].
  split; [apply blockOrder_descending|].
  intros k. rewrite blockOrder_sortedResults.
  apply sort_stable. apply sameCounts_compare.
Qed.

Lemma blocks_are_in_descending_order_of_counts_witness :
  messageCount scenarioStore scenarioRun <> 0%nat
  /\ (exists out, snd (formatResults plain scenarioRun scenarioStore) = inr out)
  /\ StronglySorted descending (blockOrder scenarioStore scenarioRun).
Proof.
  assert (Hn : messageCount scenarioStore scenarioRun <> 0%nat)
    by (vm_compute; discriminate).
  split; [exact Hn|]. split; [eexists; reflexivity|].
  eapply (blocks_are_in_descending_order_of_counts plain scenarioRun scenarioStore
            _ Hn eq_refl).
Defined.

(** The file with one error comes before the file with three warnings. *)
Example scenario_report :
  map fst (blockOrder scenarioStore scenarioRun) = ["a.yaml"; "b.yaml"]
  /\ snd (formatResults plain scenarioRun scenarioStore)
     = inr (join nl [""; "a.yaml"; "x 1 e1 oas3-schema"; "";
                     "b.yaml"; "! 2 w2 operation-tags"; "! 4 w1 openapi-tags";
                     "! 9 w3 no_summary"; ""; "3 warnings"; "1 error"]).
Proof. split; reflexivity. Qed.

(** *** The lines of a block *)

(** C5: in a report that the call returns, the block of a file is its
    name, then the lines of its hints, its infos, its warnings and its errors
    in this order ([blockText]), and each of the four buckets holds the
    messages of the matching array of the input sorted by ascending line,
    the messages of one line in the order they had. *)
Theorem block_lists_sorted_buckets_by_severity E results s out :
  messageCount s results <> 0%nat ->
  snd (formatResults E results s) = inr out ->
  out = header E
        ++ join nl (map (blockText E (lineWidth E s results) (messageWidth E s results))
                      (blockOrder s results))
        ++ footer E (countOf b_hints (sortedResults s results))
             (countOf b_infos (sortedResults s results))
             (countOf b_warnings (sortedResults s results))
             (countOf b_errors (sortedResults s results))
  /\ forall file b, In (file, b) (blockOrder s results) ->
      blockText E (lineWidth E s results) (messageWidth E s results) (file, b)
      = underline E file ++ nl
        ++ join nl
             (map (lineText E info (lineWidth E s results) (messageWidth E s results))
                (b_hints b)
              ++ map (lineText E info (lineWidth E s results) (messageWidth E s results))
                   (b_infos b)
              ++ map (lineText E warning (lineWidth E s results) (messageWidth E s results))
                   (b_warnings b)
              ++ map (lineText E error (lineWidth E s results) (messageWidth E s results))
                   (b_errors b))
        ++ nl
      /\ exists r, In (file, r) results
         /\ stablySortedByLine (readField s (hints r)) (b_hints b)
         /\ stablySortedByLine (readField s (infos r)) (b_infos b)
         /\ stablySortedByLine (readField s (warnings r)) (b_warnings b)
         /\ stablySortedByLine (readField s (errors r)) (b_errors b).
Proof.
  intros Hn H. split; [now apply formatResults_inr|].
  intros file b Hin. split; [reflexivity|].
  apply blockOrder_In in Hin as (r & Hr & Hb). simpl in Hr, Hb. subst b.
  exists r. split; [assumption|].
  repeat split; apply sort_stablySortedByLine.
Qed.

Lemma block_lists_sorted_buckets_by_severity_witness :
  messageCount helpStore helpRun <> 0%nat
  /\ (exists out, snd (formatResults plain helpRun helpStore) = inr out)
  /\ forall file b, In (file, b) (blockOrder helpStore helpRun) ->
      exists r, In (file, r) helpRun
        /\ stablySortedByLine (readField helpStore (warnings r)) (b_warnings b).
Proof.
  assert (Hn : messageCount helpStore helpRun <> 0%nat) by (vm_compute; discriminate).
  split; [exact Hn|]. split; [eexists; reflexivity|].
  intros file b Hin.
  destruct (block_lists_sorted_buckets_by_severity plain helpRun helpStore _ Hn eq_refl)
    as [_ Hblocks].
  destruct (Hblocks file b Hin) as (_ & r & Hr & _ & _ & Hw & _).
  exists r. split; assumption.
Defined.

(** The report of the help text: the warnings in the order of their
    lines, then the error, then the statistics. *)
Example help_report :
  snd (formatResults plain helpRun helpStore)
  = inr (join nl
      [""; "api.yaml";
       "! 3 Major version segment not present in either server URLs or paths major-version-in-path";
       "! 7 OpenAPI object should have non-empty `tags` array.               openapi-tags";
       "x 0 Object should have the required property `info`.                 oas3-schema";
       ""; "2 warnings"; "1 error"]).
Proof. reflexivity. Qed.

(** *** A run without messages *)

(** C6: a run whose files hold no message at all formats to the empty
    string. *)
Theorem clean_run_formats_to_empty_string E results s :
  messageCount s results = 0%nat ->
  snd (formatResults E results s) = inr "".
Proof.
  intros H. now rewrite formatResults_clean.
Qed.

Lemma clean_run_formats_to_empty_string_witness :
  messageCount cleanStore cleanRun = 0%nat
  /\ snd (formatResults plain cleanRun cleanStore) = inr "".
Proof.
  split; [reflexivity|].
  apply (clean_run_formats_to_empty_string plain cleanRun cleanStore). reflexivity.
Defined.

(** *** The statistics *)

Lemma statistic_regular E style word total :
  plurRegular E -> In word severityWords ->
  statistic E style word total =
  if (0 <? total)%nat
  then [style (pretty total ++ " " ++ (if (total =? 1)%nat then word else word ++ "s"))]
  else [].
Proof.
  intros Hp Hw. unfold statistic. now rewrite Hp.
Qed.

(** When the call returns the report of a run with at least one message,
    the report ends with the statistics: the totals of the hints, infos,
    warnings and errors in this order, those that are zero left out, and
    each with its word in the singular for the total 1 and with an s
    otherwise. *)
Lemma report_ends_with_statistics E results s out :
  plurRegular E ->
  messageCount s results <> 0%nat ->
  snd (formatResults E results s) = inr out ->
  let total bucket := countOf bucket (sortedResults s results) in
  let entry style word n :=
    if (0 <? n)%nat
    then [style (pretty n ++ " " ++ (if (n =? 1)%nat then word else word ++ "s"))]
    else [] in
  exists body,
    out = body ++ nl
          ++ join nl (entry (cyan E) "hint" (total b_hints)
                      ++ entry (cyan E) "info" (total b_infos)
                      ++ entry (yellow E) "warning" (total b_warnings)
                      ++ entry (red E) "error" (total b_errors))
    /\ (total b_hints + total b_infos + total b_warnings + total b_errors)%nat
       = messageCount s results.
Proof.
  intros Hp Hn H total entry.
  apply formatResults_inr in H as [-> _]; [|assumption].
  eexists (header E ++ join nl _). split.
  - rewrite append_assoc. do 2 f_equal. unfold footer.
    rewrite !statistic_regular by (assumption || (unfold severityWords; simpl; tauto)).
    reflexivity.
  - subst total. simpl.
    rewrite <- messageCount_sorted, <- countOf_sum. lia.
Qed.

(** C7, at a run with one hint and no other message: the message is wider
    than the message column, which is computed from the errors and the
    warnings alone, the padding of its line is negative, and the call throws
    instead of returning a report with its statistics. *)
Theorem hint_only_run_throws :
  messageCount hintStore hintRun = 1%nat
  /\ lineWidth plain hintStore hintRun = 1%nat
  /\ messageWidth plain hintStore hintRun = 0%nat
  /\ formatLine plain info 1 0 (msg "x" "operation-description" 1)
     = inl (RangeError "Invalid count value")
  /\ snd (formatResults plain hintRun hintStore) = inl (RangeError "Invalid count value").
Proof. repeat split; vm_compute; reflexivity. Qed.

(** The same file with an error as wide as the hint is reported. *)
Example hint_with_error_returns :
  exists out,
    snd (formatResults plain
           [("api.yaml",
             {| version := "3.0.0"; errors := Some 1%nat; warnings := None;
                infos := None; hints := Some 0%nat |})]
           [[msg "x" "operation-description" 1]; [msg "y" "oas3-schema" 2]])
    = inr out.
Proof. eexists. reflexivity. Qed.

(** *** Absent fields *)

Lemma sortInPlace_empty e s : read s e = [] -> sortInPlace e s = s.
Proof.
  unfold sortInPlace, read. intros H. rewrite H. simpl.
  destruct (s !! e) as [l|] eqn:Hl; simpl in H.
  - subst l. now apply list_insert_id.
  - apply list_insert_ge. now apply lookup_ge_None.
Qed.

Lemma sortField_default e field s :
  read s e = [] -> sortField (Some (default e field)) s = sortField field s.
Proof.
  intros H. destruct field as [l|]; simpl; [reflexivity|].
  now apply sortInPlace_empty.
Qed.

Lemma read_sortField_empty e field s :
  read s e = [] -> read (sortField field s) e = [].
Proof.
  intros H. destruct field as [l|]; simpl; [|assumption].
  rewrite read_sortInPlace. destruct (decide (l = e)) as [->|_]; [|assumption].
  now rewrite H.
Qed.

Lemma sortResult_withDefaults e r s :
  read s e = [] -> sortResult (withDefaults e r) s = sortResult r s.
Proof.
  intros H. unfold sortResult, withDefaults. cbn [errors warnings infos hints].
  rewrite (sortField_default e (errors r)) by assumption.
  rewrite (sortField_default e (warnings r)) by now apply read_sortField_empty.
  rewrite (sortField_default e (infos r)) by now repeat apply read_sortField_empty.
  rewrite (sortField_default e (hints r)) by now repeat apply read_sortField_empty.
  reflexivity.
Qed.

Lemma read_sortResult_empty e r s :
  read s e = [] -> read (sortResult r s) e = [].
Proof. intros H. unfold sortResult. now repeat apply read_sortField_empty. Qed.

Lemma read_sortResults_empty e results s :
  read s e = [] -> read (sortResults results s) e = [].
Proof.
  revert s. induction results as [|fr results IH]; intros s H; [assumption|].
  unfold sortResults in *. simpl. apply IH. now apply read_sortResult_empty.
Qed.

Lemma sortResults_fillDefaults e results s :
  read s e = [] -> sortResults (fillDefaults e results) s = sortResults results s.
Proof.
  revert s. induction results as [|fr results IH]; intros s H; [reflexivity|].
  unfold sortResults, fillDefaults in *. simpl.
  rewrite sortResult_withDefaults by assumption.
  apply IH. now apply read_sortResult_empty.
Qed.

Lemma readField_default e field s :
  read s e = [] -> readField s (Some (default e field)) = readField s field.
Proof. intros H. destruct field; simpl; [reflexivity | assumption]. Qed.

Lemma readResults_fillDefaults e results s :
  read s e = [] -> readResults s (fillDefaults e results) = readResults s results.
Proof.
  intros H. unfold readResults, fillDefaults. rewrite map_map.
  apply map_ext. intros fr. cbn [fst snd]. f_equal.
  unfold readResult, withDefaults. cbn [version errors warnings infos hints].
  now rewrite !readField_default by assumption.
Qed.

Lemma formatResults_fillDefaults E e results s :
  read s e = [] ->
  formatResults E (fillDefaults e results) s = formatResults E results s.
Proof.
  intros H. unfold formatResults.
  rewrite sortResults_fillDefaults by assumption.
  rewrite readResults_fillDefaults by now apply read_sortResults_empty.
  reflexivity.
Qed.

Lemma noBuckets_locations r : noBuckets r = true -> locations r = [].
Proof.
  unfold noBuckets, locations.
  destruct (errors r), (warnings r), (infos r), (hints r); simpl;
    intros; (discriminate || reflexivity).
Qed.

Lemma noBuckets_sizes s r : noBuckets r = true -> bucketSizes (readResult s r) = 0%nat.
Proof.
  unfold noBuckets, bucketSizes, readResult.
  destruct (errors r), (warnings r), (infos r), (hints r); simpl;
    intros; (discriminate || reflexivity).
Qed.

Lemma formatResults_noBuckets E results s :
  forallb (fun fr => noBuckets (snd fr)) results = true ->
  formatResults E results s = (s, inr "").
Proof.
  intros H. rewrite forallb_forall in H.
  assert (Hloc : allLocations results = []).
  { unfold allLocations. induction results as [|fr results IH]; [reflexivity|].
    simpl. rewrite noBuckets_locations by (apply H; now left).
    apply IH. intros x Hx. apply H. now right. }
  rewrite formatResults_clean.
  - now rewrite sortResults_locations, Hloc.
  - unfold messageCount. induction results as [|fr results IH]; [reflexivity|].
    simpl. rewrite noBuckets_sizes by (apply H; now left). simpl.
    apply IH.
    + intros x Hx. apply H. now right.
    + simpl in Hloc. apply app_eq_nil in Hloc. tauto.
Qed.

(** C10, as stated, fails: in the only result of this run three of the
    four fields are absent, and the run does not format to the empty
    string. *)
Lemma run_with_absent_fields_is_not_empty :
  forallb (fun fr => someAbsent (snd fr)) errorRun = true
  /\ exists out, snd (formatResults plain errorRun errorStore) = inr out /\ out <> "".
Proof.
  split; [reflexivity|]. eexists. split; [reflexivity|]. discriminate.
Qed.

(** C10, amended: an absent field is an empty bucket. With an empty array
    in the place of every absent field the call returns or throws the same
    and leaves the same store; an absent field is read as a bucket without
    messages, which adds nothing to a total nor to a width; and a run whose
    results have none of the four fields formats to the empty string and
    leaves the store as it is. *)
Theorem absent_field_is_an_empty_bucket E results s e :
  read s e = [] ->
  formatResults E (fillDefaults e results) s = formatResults E results s
  /\ (forall s', readField s' None = []
        /\ length (readField s' None) = 0%nat
        /\ lastLineWidth E (readField s' None) = 0%nat
        /\ forall w, widest E (readField s' None) w = w)
  /\ (forallb (fun fr => noBuckets (snd fr)) results = true ->
      formatResults E results s = (s, inr "")).
Proof.
  intros H. split; [now apply formatResults_fillDefaults|].
  split; [intros s'; repeat split|].
  apply formatResults_noBuckets.
Qed.

Lemma absent_field_is_an_empty_bucket_witness :
  read mixedStore 1 = []
  /\ formatResults plain (fillDefaults 1 mixedRun) mixedStore
     = formatResults plain mixedRun mixedStore.
Proof.
  split; [reflexivity|].
  apply (absent_field_is_an_empty_bucket plain mixedRun mixedStore 1). reflexivity.
Defined.

End ReportFacts.

(** ** The configuration *)

Module ConfigFacts.
Import Json Config.

Lemma get_set_eq k v o : get k o <> None -> get k (set k v o) = Some v.
Proof.
  induction o as [|[k' v'] o IH]; simpl; [congruence|].
  destruct (String.eqb_spec k' k) as [->|Hne]; simpl.
  - now rewrite String.eqb_refl.
  - intros H. destruct (String.eqb_spec k' k); [contradiction | now apply IH].
Qed.

Lemma get_set_ne k k' v o : k <> k' -> get k' (set k v o) = get k' o.
Proof.
  intros Hne. induction o as [|[k0 v0] o IH]; simpl; [reflexivity|].
  destruct (String.eqb_spec k0 k) as [->|Hk]; simpl.
  - destruct (String.eqb_spec k k'); [contradiction | reflexivity].
  - destruct (String.eqb_spec k0 k'); [reflexivity | apply IH].
Qed.

Lemma get_app k (o o' : Object) :
  get k (o ++ o')%list = match get k o with Some v => Some v | None => get k o' end.
Proof.
  induction o as [|[k0 v0] o IH]; simpl; [reflexivity|].
  destruct (String.eqb k0 k); [reflexivity | apply IH].
Qed.

Lemma get_define_eq k v o : get k (define k v o) = Some v.
Proof.
  unfold define. destruct (get k o) eqn:H.
  - apply get_set_eq. congruence.
  - rewrite get_app, H. simpl. now rewrite String.eqb_refl.
Qed.

Lemma get_define_ne k k' v o : k <> k' -> get k' (define k v o) = get k' o.
Proof.
  intros Hne. unfold define. destruct (get k o) eqn:H.
  - now apply get_set_ne.
  - rewrite get_app. destruct (get k' o); [reflexivity|].
    simpl. destruct (String.eqb_spec k k'); [contradiction | reflexivity].
Qed.

Lemma get_None_notin k o : ~ In k (map fst o) -> get k o = None.
Proof.
  induction o as [|[k0 v0] o IH]; simpl; [reflexivity|].
  intros H. destruct (String.eqb_spec k0 k) as [->|Hne]; [tauto|].
  apply IH. tauto.
Qed.

Lemma get_In k v o : get k o = Some v -> In (k, v) o.
Proof.
  induction o as [|[k0 v0] o IH]; simpl; [discriminate|].
  destruct (String.eqb_spec k0 k) as [->|Hne].
  - intros [= ->]. now left.
  - intros H. right. now apply IH.
Qed.

Lemma merge_Obj mergeds sources :
  merge (Obj mergeds) (Obj sources) = Obj (fold_left mergeKey sources mergeds).
Proof. reflexivity. Qed.

Lemma merge_leaf merged source :
  isOptionObject merged = false \/ isOptionObject source = false ->
  merge merged source = source.
Proof.
  destruct source, merged; simpl; intros [H|H]; try discriminate; reflexivity.
Qed.

(** A property of the merge of two objects: the value of the override
    merged into the one it meets, or the value that was there when the
    override has no such key. *)
Lemma get_mergeKeys k sources mergeds :
  NoDup (map fst sources) ->
  get k (fold_left mergeKey sources mergeds) =
  match get k sources with
  | Some v => Some (match get k mergeds with Some m => merge m v | None => v end)
  | None => get k mergeds
  end.
Proof.
  revert mergeds. induction sources as [|[k1 v1] sources IH]; intros mergeds Hnd;
    [reflexivity|].
  simpl in Hnd. apply NoDup_cons in Hnd as [Hnotin Hnd'].
  rewrite list_elem_of_In in Hnotin.
  simpl fold_left. rewrite IH by assumption.
  cbn [get]. destruct (String.eqb_spec k1 k) as [->|Hne].
  - rewrite (get_None_notin k sources) by assumption.
    unfold mergeKey. cbn [fst snd]. destruct (get k mergeds); apply get_define_eq.
  - assert (Hsame : get k (mergeKey mergeds (k1, v1)) = get k mergeds).
    { unfold mergeKey. cbn [fst snd].
      destruct (get k1 mergeds); now apply get_define_ne. }
    now rewrite Hsame.
Qed.

Lemma unspecified_getPath keys override :
  unspecified keys override -> getPath keys override = None.
Proof.
  revert override. induction keys as [|k keys IH]; intros override H; [destruct H|].
  simpl in *. destruct override; try contradiction.
  destruct (get k properties); [now apply IH | reflexivity].
Qed.

Lemma distinctKeys_Obj o :
  distinctKeys (Obj o) = true ->
  NoDup (map fst o) /\ forall k v, get k o = Some v -> distinctKeys v = true.
Proof.
  simpl. rewrite andb_true_iff, bool_decide_eq_true, forallb_forall.
  intros [Hnd Hall]. split; [assumption|].
  intros k v Hget. apply (Hall (k, v)). now apply get_In.
Qed.

(** The merge is leaf by leaf: below a path that the override leaves
    open, the merged value is the one that was there. *)
Lemma merge_unspecified keys merged override :
  distinctKeys override = true ->
  unspecified keys override ->
  getPath keys (merge merged override) = getPath keys merged.
Proof.
  revert merged override.
  induction keys as [|k keys IH]; intros merged override Hwf H; [destruct H|].
  destruct override as [| | | | |sources]; try (simpl in H; contradiction).
  apply distinctKeys_Obj in Hwf as [Hnd Hsub].
  assert (Hk : unspecified (k :: keys) (Obj sources)) by exact H.
  simpl in H.
  destruct merged as [| | | | |mergeds];
    try (rewrite merge_leaf by (left; reflexivity);
         rewrite (unspecified_getPath _ _ Hk); reflexivity).
  rewrite merge_Obj. simpl. rewrite get_mergeKeys by assumption.
  destruct (get k sources) as [v|] eqn:Hv; [|reflexivity].
  specialize (Hsub k v Hv).
  destruct (get k mergeds) as [m|]; [now apply IH|].
  now apply unspecified_getPath.
Qed.

Lemma merge_empty_defaultConfig : merge (Obj []) defaultConfig = defaultConfig.
Proof. vm_compute. reflexivity. Qed.

Lemma mergeOptions_defaultConfig override :
  isOptionObject override = true ->
  mergeOptions [defaultConfig; override] = inr (merge defaultConfig override).
Proof.
  intros H. unfold mergeOptions. cbn [fold_left Js.bind Js.ret isOptionObject defaultConfig].
  fold defaultConfig. rewrite merge_empty_defaultConfig. cbn [Js.bind]. now rewrite H.
Qed.

Lemma unspecified_isOptionObject keys override :
  unspecified keys override -> isOptionObject override = true.
Proof.
  destruct keys; simpl; [contradiction|]. destruct override; simpl; tauto.
Qed.

(** C8: merging the defaults with an empty override gives the defaults;
    and for every override and every path of keys that the override leaves
    open, the merged configuration has at this path what the defaults have
    there. *)
Theorem merge_with_defaults_is_leaf_by_leaf :
  mergeOptions [defaultConfig; Obj []] = inr defaultConfig
  /\ forall override keys,
      distinctKeys override = true ->
      unspecified keys override ->
      exists merged,
        mergeOptions [defaultConfig; override] = inr merged
        /\ getPath keys merged = getPath keys defaultConfig.
Proof.
  split; [vm_compute; reflexivity|].
  intros override keys Hwf H. exists (merge defaultConfig override).
  split.
  - apply mergeOptions_defaultConfig. eapply unspecified_isOptionObject, H.
  - now apply merge_unspecified.
Qed.

Lemma merge_with_defaults_is_leaf_by_leaf_witness :
  distinctKeys unusedTagWarning = true
  /\ unspecified ["shared"; "operations"; "no_summary"] unusedTagWarning
  /\ exists merged,
      mergeOptions [defaultConfig; unusedTagWarning] = inr merged
      /\ getPath ["shared"; "operations"; "no_summary"] merged
         = getPath ["shared"; "operations"; "no_summary"] defaultConfig.
Proof.
  assert (Hwf : distinctKeys unusedTagWarning = true) by (vm_compute; reflexivity).
  assert (H : unspecified ["shared"; "operations"; "no_summary"] unusedTagWarning)
    by exact I.
  split; [exact Hwf|]. split; [exact H|].
  exact (proj2 merge_with_defaults_is_leaf_by_leaf unusedTagWarning _ Hwf H).
Defined.

(** The override of one rule changes this rule and keeps its siblings. *)
Example merge_unusedTagWarning :
  exists merged,
    mergeOptions [defaultConfig; unusedTagWarning] = inr merged
    /\ getPath ["shared"; "operations"; "unused_tag"] merged = Some (Str "warning")
    /\ getPath ["shared"; "operations"; "unused_tag"] defaultConfig = Some (Str "error")
    /\ getPath ["shared"; "operations"; "no_summary"] merged = Some (Str "warning")
    /\ getPath ["shared"; "pagination"] merged = getPath ["shared"; "pagination"] defaultConfig
    /\ getPath ["spectral"] merged = getPath ["spectral"] defaultConfig.
Proof. eexists. repeat split; vm_compute; reflexivity. Qed.

End ConfigFacts.

(** ** Linting a file and the command line *)

Module CliFacts.
Import Js Report Lint Cli.

(** The test of line 728 on an object, on a scalar and on an empty
    document. *)
Lemma hasDescriptor_Obj o :
  hasDescriptor (Some (Json.Obj o))
  = inr (Json.truthy (Json.get "openapi" o) || Json.isString "2.0" (Json.get "swagger" o)).
Proof.
  unfold hasDescriptor. simpl.
  destruct (Json.truthy (Json.get "openapi" o)); reflexivity.
Qed.

Lemma hasDescriptor_scalar v :
  v <> Json.Null -> (forall o, v <> Json.Obj o) -> hasDescriptor (Some v) = inr false.
Proof.
  intros Hnull Hobj. destruct v; try reflexivity.
  - contradiction.
  - exfalso. now apply (Hobj properties).
Qed.

Lemma hasDescriptor_undefined :
  hasDescriptor None
  = inl (TypeError "Cannot read properties of undefined (reading 'openapi')").
Proof. reflexivity. Qed.

Lemma hasDescriptor_null :
  hasDescriptor (Some Json.Null)
  = inl (TypeError "Cannot read properties of null (reading 'openapi')").
Proof. reflexivity. Qed.

(** A document on which the test of line 728 is false makes [lintFile]
    throw the error of line 729, whatever the configuration. *)
Lemma lintFile_descriptorMissing G file raw data config :
  readFile G file = inr raw ->
  parseFileContents G (preprocessFile G (stripBom G raw)) file = inr data ->
  hasDescriptor data = inr false ->
  lintFile G file config = inl (Error descriptorMissing).
Proof.
  intros Hread Hparse Hd. unfold lintFile.
  rewrite Hread. simpl. rewrite Hparse. simpl. now rewrite Hd.
Qed.

(** The errors of the parsing step are parse errors. *)
Lemma parseFileContents_isParseError G contents file e :
  parseFileContents G contents file = inl e -> isParseError e = true.
Proof.
  unfold parseFileContents.
  destruct (String.eqb _ "json").
  - destruct (parseJson G contents); intros [= <-]. reflexivity.
  - destruct (_ || _).
    + destruct (parseYaml G contents); intros [= <-]. reflexivity.
    + intros [= <-]. reflexivity.
Qed.

(** When the parsed document is a value other than [null], an object, a
    string, a number, a boolean or an array, and has neither a truthy
    [openapi] nor a [swagger] equal to ["2.0"], [lintFile] throws the
    descriptor-missing error, which is not a parse error; the command line
    logs its message when the file was named and logs nothing when the file
    was found by auto-discovery, and in both cases the file is left out of
    the results. *)
Theorem missing_descriptor_is_surfaced_unless_auto_detected S file raw v :
  readFile (engines S file) file = inr raw ->
  parseFileContents (engines S file)
    (preprocessFile (engines S file) (stripBom (engines S file) raw)) file
  = inr (Some v) ->
  v <> Json.Null ->
  (forall o, v = Json.Obj o ->
     Json.truthy (Json.get "openapi" o) = false
     /\ Json.isString "2.0" (Json.get "swagger" o) = false) ->
  lintFile (engines S file) file (config S) = inl (Error descriptorMissing)
  /\ isParseError (Error descriptorMissing) = false
  /\ lintOne S false file = ([red (terminal S) descriptorMissing], None)
  /\ lintOne S true file = ([], None).
Proof.
  intros Hread Hparse Hnull Hobj.
  assert (Hd : hasDescriptor (Some v) = inr false).
  { destruct v; try reflexivity; [contradiction|].
    rewrite hasDescriptor_Obj.
    destruct (Hobj properties eq_refl) as [-> ->]. reflexivity. }
  assert (Hl : lintFile (engines S file) file (config S) = inl (Error descriptorMissing)).
  { eapply lintFile_descriptorMissing; eassumption. }
  split; [exact Hl|]. split; [reflexivity|].
  unfold lintOne. rewrite Hl. split; [reflexivity|].
  cbn [message isError andb]. now rewrite String.eqb_refl.
Qed.

Lemma missing_descriptor_is_surfaced_unless_auto_detected_witness :
  lintFile (sampleEngines (onlyErrors 0)) "notes.yaml" (Json.Obj [])
  = inl (Error descriptorMissing)
  /\ lintOne (sampleSetup (onlyErrors 0) errorStore) false "notes.yaml"
     = ([descriptorMissing], None)
  /\ lintOne (sampleSetup (onlyErrors 0) errorStore) true "notes.yaml" = ([], None).
Proof.
  destruct (missing_descriptor_is_surfaced_unless_auto_detected
              (sampleSetup (onlyErrors 0) errorStore) "notes.yaml" "notes.yaml"
              (Json.Obj [("title", Json.Str "notes")]) eq_refl eq_refl)
    as (Hl & _ & Hnamed & Hauto).
  - discriminate.
  - intros o [= <-]. split; reflexivity.
  - split; [exact Hl|]. split; [exact Hnamed | exact Hauto].
Defined.

(** C3, at an empty YAML file: the parser returns [undefined], which has
    neither an [openapi] nor a [swagger]; reading [data.openapi] on line 728
    throws a [TypeError], so [lintFile] does not throw the descriptor-missing
    error, and the command line logs the message of the [TypeError], also
    when the file was found by auto-discovery. *)
Theorem empty_document_throws_type_error :
  parseFileContents (sampleEngines (onlyErrors 0)) "empty.yaml" "empty.yaml" = inr None
  /\ lintFile (sampleEngines (onlyErrors 0)) "empty.yaml" (Json.Obj [])
     = inl (TypeError "Cannot read properties of undefined (reading 'openapi')")
  /\ lintFile (sampleEngines (onlyErrors 0)) "empty.yaml" (Json.Obj [])
     <> inl (Error descriptorMissing)
  /\ lintOne (sampleSetup (onlyErrors 0) errorStore) true "empty.yaml"
     = (["Cannot read properties of undefined (reading 'openapi')"], None)
  /\ lintOne (sampleSetup (onlyErrors 0) errorStore) false "empty.yaml"
     = (["Cannot read properties of undefined (reading 'openapi')"], None).
Proof.
  split; [reflexivity|]. split; [reflexivity|].
  split; [vm_compute; discriminate|]. split; reflexivity.
Qed.

(** Auto-discovery in the sample directory lints [api.yaml] and drops
    [notes.yaml] without a line in the log. *)
Example auto_discovery_skips_silently :
  lintAll (sampleSetup (onlyErrors 0) errorStore) true ["api.yaml"; "notes.yaml"]
  = ([], [("api.yaml", onlyErrors 0)]).
Proof. vm_compute. reflexivity. Qed.

(** *** The exit status *)


Lemma someErrors_exists s results :
  someErrors s results = true <->
  exists file r, In (file, r) results /\ readField s (errors r) <> [].
Proof.
  unfold someErrors. rewrite existsb_exists. split.
  - intros ([file r] & Hin & H). exists file, r. split; [assumption|].
    simpl in H. apply Nat.ltb_lt in H. destruct (readField s (errors r)); simpl in H;
      [lia | discriminate].
  - intros (file & r & Hin & H). exists (file, r). split; [assumption|].
    simpl. apply Nat.ltb_lt. destruct (readField s (errors r)); simpl;
      [contradiction | lia].
Qed.

(** The exit status of a run, by cases: 2 for an invalid configuration or
    a run without results; otherwise 1 when a result has an error or when
    [formatResults] throws; otherwise 0. *)
Lemma exitStatus_main S input :
  exitStatus (main S input) =
  if invalid S || (length (lintedResults S input) =? 0)%nat then 2
  else if someErrors (heap S) (lintedResults S input) then 1
  else match snd (formatResults (terminal S) (lintedResults S input) (heap S)) with
       | inr _ => 0
       | inl _ => 1
       end.
Proof.
  unfold main, lintedResults, lintedFiles.
  destruct (invalid S); [reflexivity|]. cbn [orb].
  set (files := if (length input =? 0)%nat then _ else _).
  destruct (lintAll S (length input =? 0)%nat files) as [logs results]. cbn [snd].
  destruct (length results =? 0)%nat; [reflexivity|].
  destruct (snd (formatResults (terminal S) results (heap S)));
    destruct (someErrors (heap S) results); reflexivity.
Qed.

(** When [formatResults] returns, the exit status is the one of the
    exit-code policy. *)
Lemma exitStatus_policy S input :
  uncaught (main S input) = None ->
  exitStatus (main S input) =
  if invalid S || (length (lintedResults S input) =? 0)%nat then 2
  else if someErrors (heap S) (lintedResults S input) then 1 else 0.
Proof.
  intros Hu. rewrite exitStatus_main.
  destruct (invalid S) eqn:Hi; [reflexivity|]. cbn [orb].
  destruct (length (lintedResults S input) =? 0)%nat eqn:Hl; [reflexivity|].
  destruct (someErrors (heap S) (lintedResults S input)); [reflexivity|].
  revert Hu. unfold main, lintedResults, lintedFiles in *. rewrite Hi.
  set (files := if (length input =? 0)%nat then _ else _) in *.
  destruct (lintAll S (length input =? 0)%nat files) as [logs results]. cbn [snd] in *.
  rewrite Hl.
  destruct (snd (formatResults (terminal S) results (heap S))); simpl;
    [discriminate | reflexivity].
Qed.

(** C9, at a run on one file with one hint and no error: the
    configuration is valid, the file is linted, no result has an error, and
    the exit status is 1, because [formatResults] throws where the script
    prints the report. *)
Theorem hint_only_run_exits_with_1 :
  invalid (sampleSetup (onlyHints 0) hintStore) = false
  /\ lintedResults (sampleSetup (onlyHints 0) hintStore) ["api.yaml"]
     = [("api.yaml", onlyHints 0)]
  /\ someErrors hintStore [("api.yaml", onlyHints 0)] = false
  /\ uncaught (main (sampleSetup (onlyHints 0) hintStore) ["api.yaml"])
     = Some (RangeError "Invalid count value")
  /\ exitCode (main (sampleSetup (onlyHints 0) hintStore) ["api.yaml"]) = 0
  /\ exitStatus (main (sampleSetup (onlyHints 0) hintStore) ["api.yaml"]) = 1.
Proof. repeat split; vm_compute; reflexivity. Qed.

(** The run of the help text, two warnings and one error, exits with 1,
    and a run on a file with an error-free report exits with 0. *)
Example help_run_exits_with_1 :
  exitStatus
    (main (sampleSetup
             {| version := "3.0.0"; errors := Some 0%nat; warnings := Some 1%nat;
                infos := None; hints := None |}
             helpStore)
       ["api.yaml"]) = 1.
Proof. vm_compute. reflexivity. Qed.

Example no_files_exits_with_2 :
  exitStatus (main (sampleSetup (onlyErrors 0) errorStore) ["notes.yaml"]) = 2.
Proof. vm_compute. reflexivity. Qed.

End CliFacts.

(** * Further properties of the code *)

(** ** [runInDirectory] *)

Module ProcessExtras.
Import Process.

Lemma runInDirectory_halves {T} directory (callback : Callback T) w :
  runInDirectory directory callback w =
  match enter directory w with
  | (w1, inl e) => (w1, inl e)
  | (w1, inr original) =>
      match callback w1 with
      | (w2, inl e) => (w2, inl e)
      | (w2, inr result) =>
          match leave original w2 with
          | (w3, inl e) => (w3, inl e)
          | (w3, inr _) => (w3, inr result)
          end
      end
  end.
Proof.
  unfold runInDirectory, enter, leave.
  destruct (chdir directory w) as [w1 [e|[]]]; reflexivity.
Qed.

(** X1: when the directory exists, the callback resolves and the
    original directory still exists afterwards, [runInDirectory] resolves
    to the result of the callback and the process is back in the directory
    it started from, wherever the callback left it. *)
Theorem runInDirectory_restores_when_callback_resolves
    {T} directory (callback : Callback T) w w1 w2 result :
  chdir directory w = (w1, inr tt) ->
  callback w1 = (w2, inr result) ->
  resolve w2 (cwd w2) (cwd w) = Some (cwd w) ->
  snd (runInDirectory directory callback w) = inr result
  /\ cwd (fst (runInDirectory directory callback w)) = cwd w.
Proof.
  intros Hin Hcall Hback.
  destruct (ProcessFacts.runInDirectory_resolves directory callback w w1 w2 result
              Hin Hcall Hback) as (w3 & -> & Hcwd).
  split; [reflexivity | exact Hcwd].
Qed.

Lemma runInDirectory_restores_when_callback_resolves_witness :
  snd (runInDirectory "specs" succeeding repo) = inr tt
  /\ cwd (fst (runInDirectory "specs" succeeding repo)) = cwd repo.
Proof.
  eapply (runInDirectory_restores_when_callback_resolves "specs" succeeding repo);
    reflexivity.
Defined.

(** X2: when the directory does not exist, [process.chdir] throws, the
    callback is not run (the outcome is the same for every callback) and
    the process state is untouched. *)
Theorem runInDirectory_missing_directory {T} directory (callback : Callback T) w :
  resolve w (cwd w) directory = None ->
  runInDirectory directory callback w
  = (w, inl (Js.Error "ENOENT: no such file or directory, chdir")).
Proof.
  intros H. unfold runInDirectory, chdir. now rewrite H.
Qed.

Lemma runInDirectory_missing_directory_witness :
  resolve repo (cwd repo) "nowhere" = None
  /\ runInDirectory "nowhere" succeeding repo
     = (repo, inl (Js.Error "ENOENT: no such file or directory, chdir")).
Proof.
  split; [reflexivity|].
  apply (runInDirectory_missing_directory "nowhere" succeeding repo). reflexivity.
Defined.

(** X3: two overlapping calls do not restore the directory. When the
    second call starts while the first awaits its callback and the first
    resumes first, the second call saves the directory of the first as its
    original, and puts the process back there when it ends: the process is
    left in the directory of the first call, not in the one it started
    from. *)
Theorem overlapped_calls_end_in_first_directory directoryA directoryB w a b :
  resolve w (cwd w) directoryA = Some a ->
  resolve w a directoryB = Some b ->
  resolve w b (cwd w) = Some (cwd w) ->
  resolve w (cwd w) a = Some a ->
  snd (overlapped directoryA directoryB w) = inr tt
  /\ cwd (fst (overlapped directoryA directoryB w)) = a.
Proof.
  intros HA HB Hback Hagain.
  unfold overlapped, enter, leave, chdir. simpl.
  rewrite HA. simpl. rewrite HB. simpl. rewrite Hback. simpl. rewrite Hagain.
  split; reflexivity.
Qed.

Lemma overlapped_calls_end_in_first_directory_witness :
  cwd (flat "/repo") = "/repo"
  /\ snd (overlapped "/repo/a" "/repo/b" (flat "/repo")) = inr tt
  /\ cwd (fst (overlapped "/repo/a" "/repo/b" (flat "/repo"))) = "/repo/a".
Proof.
  split; [reflexivity|].
  apply (overlapped_calls_end_in_first_directory "/repo/a" "/repo/b" (flat "/repo")
           "/repo/a" "/repo/b"); reflexivity.
Defined.

End ProcessExtras.

(** ** [formatResults] *)

Module ReportExtras.
Import Js JsFacts Report ReportFacts.

(** *** When the call throws *)

(** X4: [formatResults] throws nothing but the [RangeError] of a negative
    padding, and it throws it exactly for a run with at least one message in
    which the line number or the message of some line is wider than the
    column computed for it. *)
Theorem formatResults_throws_iff E results s e :
  snd (formatResults E results s) = inl e <->
  e = RangeError "Invalid count value"
  /\ messageCount s results <> 0%nat
  /\ ~ Forall (fun fb => Forall (fits E (lineWidth E s results) (messageWidth E s results))
                            (allMessages (snd fb)))
         (blockOrder s results).
Proof.
  split.
  - intros H. destruct (formatResults_inl E results s e H) as [-> Hn].
    repeat split; [|assumption].
    intros H0. rewrite formatResults_clean in H by assumption. discriminate.
  - intros (-> & Hn & Hf). now apply formatResults_throws.
Qed.

(** *** The two columns *)

Lemma widest_ge E l w : (w <= widest E l w)%nat.
Proof.
  revert w. induction l as [|m l IH]; intros w; simpl; [lia|].
  unfold widest in *. simpl. specialize (IH (Nat.max (stringWidth E (message m)) w)). lia.
Qed.

Lemma widest_In E l w m :
  In m l -> (stringWidth E (message m) <= widest E l w)%nat.
Proof.
  revert w. induction l as [|x l IH]; intros w Hin; [destruct Hin|].
  unfold widest in *. simpl. destruct Hin as [->|Hin].
  - pose proof (widest_ge E l (Nat.max (stringWidth E (message m)) w)) as H.
    unfold widest in H. lia.
  - now apply IH.
Qed.

Lemma totals_widths_fold E (results : list (string * Buckets)) t :
  let t' := fold_left (fun t fb => addTotals E t (snd fb)) results t in
  (maxMessageWidth t <= maxMessageWidth t')%nat
  /\ (maxLineWidth t <= maxLineWidth t')%nat
  /\ forall fb, In fb results ->
       (forall m, In m (b_errors (snd fb) ++ b_warnings (snd fb)) ->
          (stringWidth E (message m) <= maxMessageWidth t')%nat)
       /\ (lastLineWidth E (b_errors (snd fb)) <= maxLineWidth t')%nat
       /\ (lastLineWidth E (b_warnings (snd fb)) <= maxLineWidth t')%nat
       /\ (lastLineWidth E (b_infos (snd fb)) <= maxLineWidth t')%nat
       /\ (lastLineWidth E (b_hints (snd fb)) <= maxLineWidth t')%nat.
Proof.
  revert t. induction results as [|fb0 results IH]; intros t; simpl.
  - split; [lia|]. split; [lia|]. intros fb [].
  - destruct (IH (addTotals E t (snd fb0))) as (Hm & Hl & Hall). simpl in Hm, Hl.
    pose proof (widest_ge E (b_errors (snd fb0) ++ b_warnings (snd fb0))
                  (maxMessageWidth t)) as Hw.
    split; [lia|]. split; [lia|].
    intros fb [<-|Hin]; [|now apply Hall].
    split; [|lia].
    intros m Hm0.
    pose proof (widest_In E _ (maxMessageWidth t) m Hm0). lia.
Qed.

(** X5: the message column is wide enough for every error and every
    warning of the run: their padding is never negative. *)
Theorem errors_and_warnings_fit_message_column E results s fb m :
  In fb (blockOrder s results) ->
  In m (b_errors (snd fb) ++ b_warnings (snd fb)) ->
  (stringWidth E (message m) <= messageWidth E s results)%nat.
Proof.
  rewrite blockOrder_sortedResults, sort_In. intros Hfb Hm.
  destruct (totals_widths_fold E (sortedResults s results) noTotals) as (_ & _ & Hall).
  now apply (Hall fb Hfb).
Qed.

Lemma errors_and_warnings_fit_message_column_witness :
  In ("api.yaml", sortedBuckets helpStore (snd (hd ("", onlyErrors 0) helpRun)))
    (blockOrder helpStore helpRun)
  /\ (String.length "Object should have the required property `info`."
      <= messageWidth plain helpStore helpRun)%nat.
Proof.
  assert (Hin : In ("api.yaml", sortedBuckets helpStore (snd (hd ("", onlyErrors 0) helpRun)))
                  (blockOrder helpStore helpRun)) by (left; reflexivity).
  split; [exact Hin|].
  apply (errors_and_warnings_fit_message_column plain helpRun helpStore _
           (msg "Object should have the required property `info`." "oas3-schema" 0) Hin).
  left. reflexivity.
Defined.








(** *** Calling twice *)

Lemma lookup_sortInPlace a (s : Store) l :
  sortInPlace a s !! l =
  if decide (a = l) then sort compareLine <$> s !! l else s !! l.
Proof.
  unfold sortInPlace, read. destruct (decide (a = l)) as [->|Hne].
  - destruct (s !! l) as [x|] eqn:Hx; simpl.
    + rewrite list_lookup_insert_eq by (eapply lookup_lt_Some; eassumption).
      reflexivity.
    + rewrite list_insert_ge by now apply lookup_ge_None. now rewrite Hx.
  - now rewrite list_lookup_insert_ne by assumption.
Qed.

Lemma lookup_sortLocations ls (s : Store) l :
  sortLocations ls s !! l =
  if decide (l ∈ ls) then sort compareLine <$> s !! l else s !! l.
Proof.
  revert s. induction ls as [|a ls IH]; intros s; simpl.
  - destruct (decide (l ∈ [])) as [H|H]; [inversion H | reflexivity].
  - rewrite IH, lookup_sortInPlace.
    destruct (decide (a = l)) as [->|Hne].
    + destruct (decide (l ∈ ls)), (decide (l ∈ l :: ls)) as [H|H];
        try reflexivity; try (exfalso; apply H; constructor).
      destruct (s !! l); simpl; [|reflexivity].
      f_equal. apply sort_idempotent, compareLine_total.
    + destruct (decide (l ∈ ls)) as [Hl|Hl], (decide (l ∈ a :: ls)) as [H|H];
        try reflexivity.
      * exfalso. apply H. now constructor.
      * exfalso. apply elem_of_cons in H as [->|H]; [now apply Hne | now apply Hl].
Qed.

Lemma sortResults_idempotent results (s : Store) :
  sortResults results (sortResults results s) = sortResults results s.
Proof.
  rewrite !sortResults_locations. apply list_eq. intros l.
  rewrite !lookup_sortLocations.
  destruct (decide (l ∈ allLocations results)); [|reflexivity].
  destruct (s !! l); simpl; [|reflexivity].
  f_equal. apply sort_idempotent, compareLine_total.
Qed.

(** X7: formatting is idempotent. A second call on the store that the
    first call left changes no array and has the same outcome, report or
    exception, as the first. *)
Theorem formatResults_twice E results s :
  formatResults E results (fst (formatResults E results s))
  = formatResults E results s.
Proof.
  rewrite formatResults_store. unfold formatResults.
  now rewrite sortResults_idempotent.
Qed.

(** *** The report as a whole *)

Lemma header_not_empty E : forall rest, header E ++ rest <> "".
Proof.
  intros rest. unfold header, nl.
  destruct (isTTY E && negb (CI E)); discriminate.
Qed.

(** X8: a report that the call returns is the empty string exactly when
    the run has no message; with a message it starts with a line break. *)
Theorem report_is_empty_iff_no_message E results s out :
  snd (formatResults E results s) = inr out ->
  (out = "" <-> messageCount s results = 0%nat)
  /\ (messageCount s results <> 0%nat -> exists rest, out = nl ++ rest).
Proof.
  intros H. destruct (Nat.eq_dec (messageCount s results) 0%nat) as [H0|Hn].
  - rewrite formatResults_clean in H by assumption. injection H as <-.
    split; [tauto | contradiction].
  - apply formatResults_inr in H as [-> _]; [|assumption]. split.
    + split; [|contradiction]. intros Hout. now apply header_not_empty in Hout.
    + intros _. unfold header. destruct (isTTY E && negb (CI E)).
      * eexists. rewrite append_assoc. reflexivity.
      * eexists. reflexivity.
Qed.

Lemma report_is_empty_iff_no_message_witness :
  snd (formatResults plain cleanRun cleanStore) = inr ""
  /\ ("" = "" <-> messageCount cleanStore cleanRun = 0%nat).
Proof.
  split; [reflexivity|].
  apply (report_is_empty_iff_no_message plain cleanRun cleanStore ""). reflexivity.
Defined.

(** X9: in the report of a run with at least one message every file of
    the input has a block, a file without messages too: the files of the
    blocks are the files of the input in another order, and the block of a
    file without messages is its name on a line and an empty line. *)
Theorem every_file_has_a_block E results s out :
  messageCount s results <> 0%nat ->
  snd (formatResults E results s) = inr out ->
  out = header E
        ++ join nl (map (blockText E (lineWidth E s results) (messageWidth E s results))
                      (blockOrder s results))
        ++ footer E (countOf b_hints (sortedResults s results))
             (countOf b_infos (sortedResults s results))
             (countOf b_warnings (sortedResults s results))
             (countOf b_errors (sortedResults s results))
  /\ Permutation (map fst (blockOrder s results)) (map fst results)
  /\ length (blockOrder s results) = length results
  /\ forall fb, In fb (blockOrder s results) -> allMessages (snd fb) = [] ->
      blockText E (lineWidth E s results) (messageWidth E s results) fb
      = underline E (fst fb) ++ nl ++ nl.
Proof.
  intros Hn H. split; [now apply formatResults_inr|].
  rewrite blockOrder_sortedResults.
  assert (Hp : Permutation (sort compareFiles (sortedResults s results))
                 (sortedResults s results)) by apply sort_perm.
  split; [|split].
  - rewrite Hp. unfold sortedResults. rewrite map_map. simpl. reflexivity.
  - rewrite sort_length. unfold sortedResults. apply length_map.
  - intros fb _ Hnone. unfold blockText, allMessages in *.
    apply app_eq_nil in Hnone as [-> Hnone].
    apply app_eq_nil in Hnone as [-> Hnone].
    apply app_eq_nil in Hnone as [-> ->]. reflexivity.
Qed.

Lemma every_file_has_a_block_witness :
  messageCount sparseStore sparseRun <> 0%nat
  /\ (exists out, snd (formatResults plain sparseRun sparseStore) = inr out)
  /\ Permutation (map fst (blockOrder sparseStore sparseRun)) (map fst sparseRun).
Proof.
  assert (Hn : messageCount sparseStore sparseRun <> 0%nat) by (vm_compute; discriminate).
  split; [exact Hn|]. split; [eexists; reflexivity|].
  eapply (every_file_has_a_block plain sparseRun sparseStore _ Hn eq_refl).
Defined.

(** *** The comparator of the files *)

(** X10: the comparator of lines 802 to 816 is a consistent ordering:
    swapping its arguments negates its result, it is 0 exactly for two files
    with the same four counts, and "not after" is transitive. *)
Theorem compareResults_is_consistent a b c :
  compareResults a b = - compareResults b a
  /\ (compareResults a b = 0 <-> counts a = counts b)
  /\ (compareResults a b <= 0 -> compareResults b c <= 0 -> compareResults a c <= 0).
Proof.
  assert (Hzero : compareResults a b = 0 ->
            length (b_errors a) = length (b_errors b)
            /\ length (b_warnings a) = length (b_warnings b)
            /\ length (b_infos a) = length (b_infos b)
            /\ length (b_hints a) = length (b_hints b)).
  { unfold compareResults.
    repeat match goal with
           | |- context [(?x =? ?y)%nat] => destruct (Nat.eqb_spec x y)
           end; lia. }
  split; [|split].
  - unfold compareResults.
    repeat match goal with
           | |- context [(?x =? ?y)%nat] => destruct (Nat.eqb_spec x y)
           end; lia.
  - split.
    + intros H. destruct (Hzero H) as (He & Hw & Hi & Hh).
      unfold counts. now rewrite He, Hw, Hi, Hh.
    + unfold counts. intros [= He Hw Hi Hh]. unfold compareResults.
      rewrite He, Hw, Hi, Hh, !Nat.eqb_refl. lia.
  - unfold compareResults.
    repeat match goal with
           | |- context [(?x =? ?y)%nat] => destruct (Nat.eqb_spec x y)
           end; lia.
Qed.

(** *** The statistics *)

Lemma countOf_inputCount s results :
  countOf b_hints (sortedResults s results) = inputCount hints s results
  /\ countOf b_infos (sortedResults s results) = inputCount infos s results
  /\ countOf b_warnings (sortedResults s results) = inputCount warnings s results
  /\ countOf b_errors (sortedResults s results) = inputCount errors s results.
Proof.
  unfold countOf, inputCount, sortedResults. rewrite !map_map.
  repeat split; f_equal; apply map_ext; intros fr; simpl; apply sort_length.
Qed.

(** X11: a report that the call returns for a run with at least one
    message ends with the statistics of the input: for the hints, the infos,
    the warnings and the errors, in this order, the number of messages of
    that severity over all files, left out when it is zero, followed by the
    word, which has an s unless the number is 1. *)
Theorem returned_report_ends_with_input_statistics E results s out :
  plurRegular E ->
  messageCount s results <> 0%nat ->
  snd (formatResults E results s) = inr out ->
  let entry style word n :=
    if (0 <? n)%nat
    then [style (pretty n ++ " " ++ (if (n =? 1)%nat then word else word ++ "s"))]
    else [] in
  exists body,
    out = body ++ nl
          ++ join nl (entry (cyan E) "hint" (inputCount hints s results)
                      ++ entry (cyan E) "info" (inputCount infos s results)
                      ++ entry (yellow E) "warning" (inputCount warnings s results)
                      ++ entry (red E) "error" (inputCount errors s results)).
Proof.
  intros Hp Hn H entry.
  destruct (report_ends_with_statistics E results s out Hp Hn H) as (body & -> & _).
  destruct (countOf_inputCount s results) as (-> & -> & -> & ->).
  exists body. reflexivity.
Qed.

Lemma returned_report_ends_with_input_statistics_witness :
  plurRegular plain
  /\ messageCount helpStore helpRun <> 0%nat
  /\ exists body,
      snd (formatResults plain helpRun helpStore)
      = inr (body ++ nl ++ join nl ["2 warnings"; "1 error"]).
Proof.
  assert (Hp : plurRegular plain) by (intros word count _; reflexivity).
  assert (Hn : messageCount helpStore helpRun <> 0%nat) by (vm_compute; discriminate).
  split; [exact Hp|]. split; [exact Hn|].
  destruct (snd (formatResults plain helpRun helpStore)) as [e|out] eqn:Hout;
    [vm_compute in Hout; discriminate|].
  destruct (returned_report_ends_with_input_statistics plain helpRun helpStore out
              Hp Hn Hout) as (body & Hbody).
  exists body. f_equal. exact Hbody.
Defined.

(** *** The lines *)

Lemma length_append (a b : string) :
  String.length (a ++ b) = (String.length a + String.length b)%nat.
Proof.
  induction a as [|x a IH]; [reflexivity|].
  change (S (String.length (a ++ b)) = S (String.length a + String.length b)).
  now rewrite IH.
Qed.

Lemma length_spaces n : String.length (spaces n) = n.
Proof.
  unfold spaces. induction n as [|n IH]; [reflexivity|].
  destruct n as [|n]; [reflexivity|].
  change (String.length (" " ++ "" ++ String.concat "" (List.repeat " " (S n))) = S (S n)).
  rewrite !length_append, IH. reflexivity.
Qed.

(** X12: a line that [formatLine] returns is aligned. It is the symbol,
    the line number moved right by spaces, the message followed by spaces,
    and the rule; the spaces and the line number have the width of the line
    column, and the message and its spaces the width of the message column. *)
Theorem formatLine_aligns E type w1 w2 m text :
  formatLine E type w1 w2 m = inr text ->
  exists n1 n2,
    text = logSymbols E type ++ " " ++ spaces n1 ++ grey E (toString (line m)) ++ " "
           ++ message m ++ spaces n2 ++ " " ++ grey E (rule m)
    /\ (n1 + stringWidth E (toString (line m)) = w1)%nat
    /\ (n2 + stringWidth E (message m) = w2)%nat
    /\ String.length (spaces n1) = n1
    /\ String.length (spaces n2) = n2.
Proof.
  intros H.
  destruct (formatLine_cases E type w1 w2 m) as [[[H1 H2] Hm]|[_ Hm]];
    rewrite Hm in H; [|discriminate].
  injection H as <-.
  exists (w1 - stringWidth E (toString (line m)))%nat,
         (w2 - stringWidth E (message m))%nat.
  split; [reflexivity|]. repeat split; try lia; apply length_spaces.
Qed.

Lemma formatLine_aligns_witness :
  exists n1 n2,
    "x  7 short    oas3-schema"
    = "x" ++ " " ++ spaces n1 ++ "7" ++ " " ++ "short" ++ spaces n2 ++ " " ++ "oas3-schema"
    /\ (n1 + 1 = 2)%nat /\ (n2 + 5 = 8)%nat.
Proof.
  destruct (formatLine_aligns plain error 2 8 (msg "short" "oas3-schema" 7)
              "x  7 short    oas3-schema" eq_refl)
    as (n1 & n2 & Htext & H1 & H2 & _).
  exists n1, n2. split; [exact Htext|]. split; [exact H1 | exact H2].
Defined.



End ReportExtras.

(** ** [lintFile] and the command line *)

Module CliExtras.
Import Js Report Lint Cli CliFacts.

(** X14: a file whose extension is not [json], [yaml] or [yml] makes
    [lintFile] throw "Unable to parse file" once it has been read, whatever
    it contains and whatever the configuration is. *)
Theorem lintFile_unsupported_extension G file raw config :
  readFile G file = inr raw ->
  slice1 (extname G file) <> "json" ->
  slice1 (extname G file) <> "yaml" ->
  slice1 (extname G file) <> "yml" ->
  lintFile G file config = inl (Error "Unable to parse file").
Proof.
  intros Hread Hj Hy1 Hy2. unfold lintFile. rewrite Hread. simpl.
  unfold parseFileContents.
  apply String.eqb_neq in Hj, Hy1, Hy2. now rewrite Hj, Hy1, Hy2.
Qed.

Lemma lintFile_unsupported_extension_witness :
  lintFile strictEngines "README.md" (Json.Obj []) = inl (Error "Unable to parse file").
Proof.
  apply (lintFile_unsupported_extension strictEngines "README.md" "README.md");
    (reflexivity || (vm_compute; discriminate)).
Defined.

(** X15: [lintFile] fails with the error of the first step that fails. A
    file that cannot be read makes it throw the error of [fs.readFile]; a
    file that is read but not parsed makes it throw the parser's error, which
    is a parse error. In both cases nothing is validated. *)
Theorem lintFile_fails_with_first_error G file config e :
  (readFile G file = inl e -> lintFile G file config = inl e)
  /\ (forall raw,
       readFile G file = inr raw ->
       parseFileContents G (preprocessFile G (stripBom G raw)) file = inl e ->
       lintFile G file config = inl e /\ isParseError e = true).
Proof.
  split.
  - intros H. unfold lintFile. now rewrite H.
  - intros raw Hread Hparse. split.
    + unfold lintFile. rewrite Hread. simpl. now rewrite Hparse.
    + eapply parseFileContents_isParseError, Hparse.
Qed.

Lemma lintFile_fails_with_first_error_witness :
  lintFile strictEngines "gone.yaml" (Json.Obj [])
  = inl (Error "ENOENT: no such file or directory, open 'gone.yaml'")
  /\ lintFile strictEngines "api.json" (Json.Obj []) = inl (JSONError "Unexpected token").
Proof.
  split.
  - apply (proj1 (lintFile_fails_with_first_error strictEngines "gone.yaml" (Json.Obj []) _)).
    reflexivity.
  - apply (proj2 (lintFile_fails_with_first_error strictEngines "api.json" (Json.Obj []) _)
             "api.json"); reflexivity.
Defined.

(** X16: what the callback of [pMap] logs for a failure follows the test
    [is.error(error)] of line 75. A file that is read and whose parser fails
    is skipped without a line in the log, whether it was named or found: the
    errors of the two parsers do not pass the test. A failure that passes it
    and whose message is not the one of the missing descriptor is logged in
    red, whether the file was named or found. In both cases the file has no
    entry in the results. *)
Theorem lintOne_logs_errors_but_not_syntax_errors S auto file :
  (forall raw e,
     readFile (engines S file) file = inr raw ->
     parseFileContents (engines S file)
       (preprocessFile (engines S file) (stripBom (engines S file) raw)) file = inl e ->
     slice1 (extname (engines S file) file) = "json"
     \/ slice1 (extname (engines S file) file) = "yaml"
     \/ slice1 (extname (engines S file) file) = "yml" ->
     lintOne S auto file = ([], None))
  /\ (forall e,
       lintFile (engines S file) file (config S) = inl e ->
       isError e = true ->
       Js.message e <> descriptorMissing ->
       lintOne S auto file = ([red (terminal S) (Js.message e)], None)).
Proof.
  split.
  - intros raw e Hread Hparse Hext.
    assert (Hl : lintFile (engines S file) file (config S) = inl e).
    { unfold lintFile. rewrite Hread. simpl. now rewrite Hparse. }
    assert (He : isError e = false).
    { revert Hparse. unfold parseFileContents.
      destruct (String.eqb_spec (slice1 (extname (engines S file) file)) "json")
        as [Hj|Hj].
      - destruct (parseJson _ _); intros [= <-]. reflexivity.
      - destruct (String.eqb_spec (slice1 (extname (engines S file) file)) "yaml")
          as [Hy|Hy]; simpl.
        + destruct (parseYaml _ _); intros [= <-]. reflexivity.
        + destruct (String.eqb_spec (slice1 (extname (engines S file) file)) "yml")
            as [Hy'|Hy'].
          * destruct (parseYaml _ _); intros [= <-]. reflexivity.
          * exfalso. tauto. }
    unfold lintOne. now rewrite Hl, He.
  - intros e Hl He Hne. unfold lintOne. rewrite Hl, He.
    apply String.eqb_neq in Hne. rewrite Hne, andb_false_r. reflexivity.
Qed.

Lemma lintOne_logs_errors_but_not_syntax_errors_witness :
  lintFile strictEngines "api.json" (Json.Obj []) = inl (JSONError "Unexpected token")
  /\ lintOne strictSetup false "api.json" = ([], None)
  /\ lintOne strictSetup true "README.md" = (["Unable to parse file"], None).
Proof.
  split; [reflexivity|]. split.
  - apply (proj1 (lintOne_logs_errors_but_not_syntax_errors strictSetup false "api.json")
             "api.json" (JSONError "Unexpected token")).
    + reflexivity.
    + reflexivity.
    + left. reflexivity.
  - apply (proj2 (lintOne_logs_errors_but_not_syntax_errors strictSetup true "README.md")
             (Error "Unable to parse file")).
    + reflexivity.
    + reflexivity.
    + vm_compute. discriminate.
Defined.

(** *** The results of a run *)



(** *** The exit status *)

(** X18: the exit status of a run is 0, 1 or 2. It is 2 exactly when the
    configuration is invalid or no file was linted; and when the
    configuration is valid and a linted file has an error, it is 1. *)
Theorem exit_status_cases S input :
  (exitStatus (main S input) = 0 \/ exitStatus (main S input) = 1
   \/ exitStatus (main S input) = 2)
  /\ (exitStatus (main S input) = 2 <->
      invalid S = true \/ lintedResults S input = [])
  /\ (invalid S = false -> someErrors (heap S) (lintedResults S input) = true ->
      exitStatus (main S input) = 1).
Proof.
  rewrite exitStatus_main.
  assert (Hlen : (length (lintedResults S input) =? 0)%nat = true
                 <-> lintedResults S input = []).
  { rewrite Nat.eqb_eq. destruct (lintedResults S input); simpl; split;
      intros H; (reflexivity || discriminate). }
  destruct (invalid S); simpl.
  - split; [auto|]. split; [tauto | intros H; discriminate H].
  - destruct (length (lintedResults S input) =? 0)%nat.
    + assert (He : lintedResults S input = []) by now apply Hlen.
      split; [auto|]. split; [tauto|].
      rewrite He. intros _ H. discriminate H.
    + assert (Hne : lintedResults S input <> []).
      { intros H. apply Hlen in H. discriminate. }
      destruct (someErrors (heap S) (lintedResults S input)).
      * split; [auto|]. split; [|reflexivity].
        split; [intros H; discriminate H
               | intros [H|H]; [discriminate H | contradiction]].
      * destruct (snd (formatResults _ _ _)); (split; [auto|]);
          (split; [|intros _ H; discriminate H]);
          (split; [intros H; discriminate H
                  | intros [H|H]; [discriminate H | contradiction]]).
Qed.

(** X19: a named file that matches nothing is not reported. When the
    configuration is valid and [globby] finds no file for the names given,
    the run prints "No files to lint", preceded under [--verbose] by the dump
    of the empty list of results and by nothing else, and exits with 2. *)
Theorem unmatched_names_are_not_reported S input :
  invalid S = false ->
  input <> [] ->
  globby S input = [] ->
  settleOrder S [] = [] ->
  stdout (main S input)
  = ((if verbose S then [inspect S []] else []) ++ ["No files to lint"])%list
  /\ exitStatus (main S input) = 2
  /\ uncaught (main S input) = None.
Proof.
  intros Hi Hin Hg Hs. unfold main. rewrite Hi.
  destruct input as [|x input]; [contradiction|]. simpl length. simpl Nat.eqb.
  cbv iota. rewrite Hg. unfold lintAll. rewrite Hs. simpl.
  destruct (verbose S); repeat split.
Qed.

Lemma unmatched_names_are_not_reported_witness :
  stdout (main strictSetup ["missing.yaml"]) = ["[]"; "No files to lint"]
  /\ exitStatus (main strictSetup ["missing.yaml"]) = 2.
Proof.
  destruct (unmatched_names_are_not_reported strictSetup ["missing.yaml"])
    as (Hout & Hexit & _); [reflexivity | discriminate | reflexivity | reflexivity |].
  split; [exact Hout | exact Hexit].
Defined.

End CliExtras.
